(** * The RSA binding of crypto/internal/boring, the ECDSA vector harness
      and the release script, embedded in Rocq.

    The Go functions of [src/crypto/internal/boring/rsa.go] are written
    as programs over the calls they make into the foreign library.  A
    program is a finite tree: it returns, panics, or performs one foreign
    call and continues with the answer.  The foreign library itself is a
    parameter of every statement (a state type and a step function), so a
    theorem about a Go function holds whatever the library answers. *)

From Stdlib Require Import ZArith NArith List String Ascii Bool Lia.
From Stdlib Require Import Strings.Byte.
From Stdlib Require Import DecimalString.
Import ListNotations.

Local Open Scope string_scope.
Local Open Scope list_scope.
Local Open Scope Z_scope.

(* ================================================================== *)
(** * Data                                                             *)
(* ================================================================== *)

(** A Go byte slice, by value. *)
Definition bytes := list byte.

(** A C pointer, as an address; the null pointer is address 0. *)
Definition ptr := N.
Definition nil : ptr := 0%N.
Definition is_nil (p : ptr) : bool := N.eqb p 0.

(** Go's [error] values that the package builds.  [NewOpenSSLError] is
    declared outside the files at hand; its result is kept symbolic, a
    non-nil error carrying the message it was given. *)
Inductive error : Type :=
| errors_New (msg : string)
| NewOpenSSLError (msg : string).

Definition error_message (e : error) : string :=
  match e with errors_New m => m | NewOpenSSLError m => m end.

(** C integer conversions from Go's 64-bit [int]: [C.int(x)] keeps the
    low 32 bits as a signed number, [C.uint(x)] as an unsigned one. *)
Definition C_int (x : Z) : Z := (x + 2^31) mod 2^32 - 2^31.
Definition C_uint (x : Z) : Z := x mod 2^32.
Definition C_size_t (x : Z) : Z := x mod 2^64.

Definition len {A} (l : list A) : Z := Z.of_nat (List.length l).

(** [make([]byte, n)]. *)
Definition make (n : N) : bytes := repeat x00 (N.to_nat n).

(** What a Go buffer holds after C code wrote [written] at its base. *)
Definition fill (buf written : bytes) : bytes :=
  firstn (List.length buf) (written ++ skipn (List.length written) buf).

(* ------------------------------------------------------------------ *)
(** ** math/big: [Bytes] and [SetBytes]                                *)
(* ------------------------------------------------------------------ *)

Definition byte_of_N (n : N) : byte :=
  match Byte.of_N n with Some b => b | None => x00 end.

(** The base-256 digits of [n], least significant first. *)
Fixpoint le_bytes (fuel : nat) (n : N) : bytes :=
  match fuel with
  | O => []
  | S f => if N.eqb n 0 then []
           else byte_of_N (n mod 256) :: le_bytes f (n / 256)
  end.

(** [x.Bytes()]: the absolute value of [x] as a big-endian byte slice
    without leading zero bytes. *)
Definition Bytes (x : Z) : bytes :=
  let n := Z.abs_N x in rev (le_bytes (N.to_nat (N.size n)) n).

(** The number whose base-256 digits are [l], least significant first. *)
Definition le_value (l : bytes) : N :=
  fold_right (fun b acc => (Byte.to_N b + 256 * acc)%N) 0%N l.

Definition be_value (buf : bytes) : N :=
  fold_left (fun acc b => (acc * 256 + Byte.to_N b)%N) buf 0%N.

(** [new(big.Int).SetBytes(buf)]: [buf] read as a big-endian unsigned
    number. *)
Definition SetBytes (buf : bytes) : Z := Z.of_N (be_value buf).

(** A [*big.Int]; [None] is the nil pointer. *)
Definition bigInt := option Z.

(* ================================================================== *)
(** * Foreign calls                                                    *)
(* ================================================================== *)

(** The functions of goboringcrypto.h that rsa.go calls, with the
    arguments the Go side passes.  A byte buffer handed over for reading
    is passed by value next to its length argument; a buffer handed over
    for writing is passed as its capacity, and the bytes the library
    wrote come back in the answer.  Arguments that are the constant
    [nil] at every call site are left out.  [copy_to_C] is not a
    function of the library: it stands for the Go-side [copy] into the
    block that [malloc] returned, a write to foreign memory. *)
Inductive call : Type :=
| RSA_new
| RSA_free (key : ptr)
| RSA_generate_key_fips (key : ptr) (bits : Z)
| RSA_get0_key (key : ptr)
| RSA_get0_factors (key : ptr)
| RSA_get0_crt_params (key : ptr)
| RSA_size (key : ptr)
| BN_bin2bn (raw : bytes) (n : Z)
| BN_num_bytes (bn : ptr)
| BN_bn2bin (bn : ptr) (cap : N)
| EVP_PKEY_new
| EVP_PKEY_free (pkey : ptr)
| EVP_PKEY_set1_RSA (pkey key : ptr)
| EVP_PKEY_CTX_new (pkey : ptr)
| EVP_PKEY_CTX_free (ctx : ptr)
| EVP_PKEY_CTX_set_rsa_padding (ctx : ptr) (padding : Z)
| EVP_PKEY_CTX_set_rsa_oaep_md (ctx md : ptr)
| malloc (size : Z)
| copy_to_C (dst : ptr) (src : bytes)
| EVP_PKEY_CTX_set0_rsa_oaep_label (ctx clabel : ptr) (n : Z)
| EVP_PKEY_CTX_set_rsa_pss_saltlen (ctx : ptr) (saltLen : Z)
| EVP_PKEY_CTX_set_rsa_mgf1_md (ctx md : ptr)
| EVP_PKEY_decrypt_init (ctx : ptr)
| EVP_PKEY_encrypt_init (ctx : ptr)
| EVP_PKEY_decrypt (ctx : ptr) (out : option N) (outLen : N)
                   (input : bytes) (inLen : Z)
| EVP_PKEY_encrypt (ctx : ptr) (out : option N) (outLen : N)
                   (input : bytes) (inLen : Z)
| RSA_sign_pss_mgf1 (key : ptr) (outcap : Z)
                    (hashed : bytes) (hashedLen : Z) (md : ptr) (saltLen : Z)
| RSA_verify_pss_mgf1 (key : ptr) (hashed : bytes) (hashedLen : Z)
                      (md : ptr) (saltLen : Z) (sig : bytes) (sigLen : Z)
| EVP_MD_type (md : ptr)
| RSA_sign (nid : Z) (msg : bytes) (msgLen : Z) (key : ptr)
| EVP_RSA_sign (md : ptr) (msg : bytes) (msgLen : Z) (key : ptr)
| RSA_verify (nid : Z) (msg : bytes) (msgLen : Z)
             (sig : bytes) (sigLen : Z) (key : ptr)
| EVP_RSA_verify (md : ptr) (msg : bytes) (msgLen : Z)
                 (sig : bytes) (sigLen : Z) (key : ptr).

(** What the library answers.  Status codes are C [int]s; byte counts
    ([RSA_size], [BN_num_bytes], the [unsigned] out-lengths) are
    naturals; a call that fills a buffer answers with its status, the
    bytes it wrote and the out-length it stored. *)
Definition resp (c : call) : Type :=
  match c with
  | RSA_new | EVP_PKEY_new | EVP_PKEY_CTX_new _ | malloc _
  | BN_bin2bn _ _ => ptr
  | RSA_free _ | EVP_PKEY_free _ | EVP_PKEY_CTX_free _
  | copy_to_C _ _ => unit
  | RSA_get0_key _ | RSA_get0_crt_params _ => ptr * ptr * ptr
  | RSA_get0_factors _ => ptr * ptr
  | RSA_size _ | BN_num_bytes _ => N
  | BN_bn2bin _ _ => bytes
  | EVP_PKEY_decrypt _ _ _ _ _ | EVP_PKEY_encrypt _ _ _ _ _
  | RSA_sign_pss_mgf1 _ _ _ _ _ _ | RSA_sign _ _ _ _
  | EVP_RSA_sign _ _ _ _ => Z * bytes * N
  | _ => Z
  end%type.

(** A call together with its answer. *)
Definition event : Type := { c : call & resp c }.
Definition called (e : event) : call := projT1 e.

(* ================================================================== *)
(** * Programs                                                         *)
(* ================================================================== *)

Inductive prog (R : Type) : Type :=
| Ret (r : R)
| Panic (msg : string)
| Call (c : call) (k : resp c -> prog R).
Arguments Ret {R} r.
Arguments Panic {R} msg.
Arguments Call {R} c k.

Fixpoint bind {A B} (p : prog A) (f : A -> prog B) : prog B :=
  match p with
  | Ret a => f a
  | Panic m => Panic m
  | Call c k => Call c (fun x => bind (k x) f)
  end.

Definition C (c : call) : prog (resp c) := Call c Ret.

Declare Scope prog_scope.
Delimit Scope prog_scope with prog.
Notation "x <- p ;; q" := (bind p (fun x => q))
  (at level 61, p at next level, right associativity) : prog_scope.
Notation "' pat <- p ;; q" := (bind p (fun x => let 'pat := x in q))
  (at level 61, pat pattern, p at next level, right associativity)
  : prog_scope.
Notation "p ;; q" := (bind p (fun _ => q))
  (at level 61, right associativity) : prog_scope.
Local Open Scope prog_scope.

(** [defer d] in front of a body [p]: [d] runs when [p] returns and when
    it panics. *)
Fixpoint defer {R} (d : prog unit) (p : prog R) : prog R :=
  match p with
  | Ret r => d ;; Ret r
  | Panic m => d ;; Panic m
  | Call c k => Call c (fun x => defer d (k x))
  end.

(** A deferred closure over named results: the [return] statement has
    stored the results [r] before the closure runs, and the closure may
    change them. *)
Fixpoint defer_named {R} (d : R -> prog R) (p : prog R) : prog R :=
  match p with
  | Ret r => d r
  | Panic m => Panic m
  | Call c k => Call c (fun x => defer_named d (k x))
  end.

(** [s[:n]] on a slice whose capacity is its length. *)
Definition slice_to (s : bytes) (n : N) : prog bytes :=
  if (n <=? N.of_nat (List.length s))%N then Ret (firstn (N.to_nat n) s)
  else Panic "slice bounds out of range".

(** How a run ends. *)
Inductive outcome (R : Type) : Type :=
| Returned (r : R)
| Panicked (msg : string).
Arguments Returned {R} r.
Arguments Panicked {R} msg.

(** Running a program against a library: how it ends, the library's
    final state, and the calls made, in order, with their answers. *)
Section Run.
Context {W : Type} (lib : forall c : call, W -> resp c * W).

Fixpoint run {R} (p : prog R) (w : W) : outcome R * W * list event :=
  match p with
  | Ret r => (Returned r, w, [])
  | Panic m => (Panicked m, w, [])
  | Call c k =>
      let '(x, w1) := lib c w in
      let '(o, w2, tr) := run (k x) w1 in
      (o, w2, existT resp c x :: tr)
  end.

Definition result {R} (p : prog R) (w : W) : outcome R :=
  fst (fst (run p w)).
Definition trace {R} (p : prog R) (w : W) : list event := snd (run p w).
Definition calls {R} (p : prog R) (w : W) : list call :=
  map called (trace p w).
End Run.

(** [answered tr c x]: in the run with events [tr], call [c] was made
    and the library answered [x]. *)
Definition answered (tr : list event) (c : call) (x : resp c) : Prop :=
  In (existT resp c x) tr.

(** Every call a program can make, whatever the answers, satisfies [P]. *)
Inductive all_calls {R} (P : call -> Prop) : prog R -> Prop :=
| all_calls_Ret r : all_calls P (Ret r)
| all_calls_Panic m : all_calls P (Panic m)
| all_calls_Call c k :
    P c -> (forall x, all_calls P (k x)) -> all_calls P (Call c k).

(** Every value a program can return, whatever the answers, satisfies
    [Q]. *)
Inductive returns_only {R} (Q : R -> Prop) : prog R -> Prop :=
| returns_only_Ret r : Q r -> returns_only Q (Ret r)
| returns_only_Panic m : returns_only Q (Panic m)
| returns_only_Call c k :
    (forall x, returns_only Q (k x)) -> returns_only Q (Call c k).

(** The foreign routines that sign or verify. *)
Definition signs_or_verifies (c : call) : bool :=
  match c with
  | RSA_sign_pss_mgf1 _ _ _ _ _ _ | RSA_verify_pss_mgf1 _ _ _ _ _ _ _
  | RSA_sign _ _ _ _ | EVP_RSA_sign _ _ _ _
  | RSA_verify _ _ _ _ _ _ | EVP_RSA_verify _ _ _ _ _ _ => true
  | _ => false
  end.

Definition no_signing (tr : list call) : Prop :=
  Forall (fun c => signs_or_verifies c = false) tr.

(** The message (plaintext, ciphertext or digest) a call hands to the
    library, next to the length the call announces for it; and the
    signature it hands over with its announced length, when it carries
    one. *)
Definition msg_arg (c : call) : option (bytes * Z) :=
  match c with
  | EVP_PKEY_decrypt _ _ _ input n | EVP_PKEY_encrypt _ _ _ input n =>
      Some (input, n)
  | RSA_sign_pss_mgf1 _ _ hashed n _ _
  | RSA_verify_pss_mgf1 _ hashed n _ _ _ _ => Some (hashed, n)
  | RSA_sign _ msg n _ | EVP_RSA_sign _ msg n _
  | RSA_verify _ msg n _ _ _ | EVP_RSA_verify _ msg n _ _ _ => Some (msg, n)
  | _ => None
  end.

Definition sig_arg (c : call) : option (bytes * Z) :=
  match c with
  | RSA_verify_pss_mgf1 _ _ _ _ _ sig n
  | RSA_verify _ _ _ sig n _ | EVP_RSA_verify _ _ _ sig n _ => Some (sig, n)
  | _ => None
  end.

(** Every call of [tr] that carries a message carries [msg], announced
    with its length as a [C.uint], and every call that carries a
    signature carries [sig], announced likewise ([None]: no call carries
    a signature). *)
Definition passes_unmodified (msg : bytes) (sig : option bytes)
    (tr : list call) : Prop :=
  Forall (fun c =>
            (forall m n, msg_arg c = Some (m, n) ->
                         m = msg /\ n = C_uint (len msg))
            /\ (forall s n, sig_arg c = Some (s, n) ->
                            Some s = sig /\ n = C_uint (len s))) tr.

(** Some call of [tr] hands the library [msg] with its length as a
    [C.uint], and in the same call [sig] with its length, when a
    signature is given. *)
Definition reaches (msg : bytes) (sig : option bytes) (tr : list call)
    : Prop :=
  Exists (fun c =>
            msg_arg c = Some (msg, C_uint (len msg))
            /\ match sig with
               | Some s => sig_arg c = Some (s, C_uint (len s))
               | None => True
               end) tr.

(** The salt length a call hands to the PSS routines. *)
Definition pss_salt_arg (c : call) : option Z :=
  match c with
  | RSA_sign_pss_mgf1 _ _ _ _ _ saltLen
  | RSA_verify_pss_mgf1 _ _ _ _ saltLen _ _ => Some saltLen
  | _ => None
  end.



Definition is_RSA_new (c : call) : bool :=
  match c with RSA_new => true | _ => false end.

(** Every call of [tr] that carries a PSS salt length carries [v]. *)
Definition salt_passed (tr : list call) (v : Z) : Prop :=
  Forall (fun c => forall x, pss_salt_arg c = Some x -> x = v) tr.

(** The calls that encrypt or decrypt. *)
Definition crypts (c : call) : bool :=
  match c with
  | EVP_PKEY_decrypt _ _ _ _ _ | EVP_PKEY_encrypt _ _ _ _ _ => true
  | _ => false
  end.

(** The context an encryption or decryption call works on. *)
Definition crypt_ctx (c : call) : option ptr :=
  match c with
  | EVP_PKEY_decrypt ctx _ _ _ _ | EVP_PKEY_encrypt ctx _ _ _ _ => Some ctx
  | _ => None
  end.




(** The calls of the OAEP block of [setupRSA]. *)
Definition oaep_specific (c : call) : bool :=
  match c with
  | EVP_PKEY_CTX_set_rsa_oaep_md _ _ | malloc _ | copy_to_C _ _
  | EVP_PKEY_CTX_set0_rsa_oaep_label _ _ _ => true
  | _ => false
  end.

Definition frees_pkey_or_ctx (c : call) : bool :=
  match c with
  | EVP_PKEY_free _ | EVP_PKEY_CTX_free _ => true
  | _ => false
  end.


(* ================================================================== *)
(** * boring.go: marshalling big integers                              *)
(* ================================================================== *)

Definition bigToBN (x : Z) : prog ptr :=
  let raw := Bytes x in
  C (BN_bin2bn raw (C_size_t (len raw))).

Definition bnToBig (bn : ptr) : prog bigInt :=
  nb <- C (BN_num_bytes bn) ;;
  let raw := make nb in
  written <- C (BN_bn2bin bn nb) ;;
  let n := N.of_nat (List.length written) in
  s <- slice_to (fill raw written) n ;;
  Ret (Some (SetBytes s)).

(* ================================================================== *)
(** * rsa.go                                                           *)
(* ================================================================== *)

Record PublicKeyRSA := { pub_key : ptr }.
Record PrivateKeyRSA := { priv_key : ptr }.

(** The nine results of [GenerateKeyRSA]. *)
Record generated := {
  gen_N : bigInt; gen_E : bigInt; gen_D : bigInt; gen_P : bigInt;
  gen_Q : bigInt; gen_Dp : bigInt; gen_Dq : bigInt; gen_Qinv : bigInt;
  gen_err : option error }.

Definition bad (e : error) : generated :=
  {| gen_N := None; gen_E := None; gen_D := None; gen_P := None;
     gen_Q := None; gen_Dp := None; gen_Dq := None; gen_Qinv := None;
     gen_err := Some e |}.


Definition GenerateKeyRSA (bits : Z) : prog generated :=
  key <- C RSA_new ;;
  if is_nil key then Ret (bad (NewOpenSSLError "RSA_new failed")) else
  defer (C (RSA_free key))
    (r <- C (RSA_generate_key_fips key (C_int bits)) ;;
     if r =? 0 then Ret (bad (NewOpenSSLError "RSA_generate_key_fips failed"))
     else
     '(n, e, d) <- C (RSA_get0_key key) ;;
     '(p, q) <- C (RSA_get0_factors key) ;;
     '(dp, dq, qinv) <- C (RSA_get0_crt_params key) ;;
     bN <- bnToBig n ;; bE <- bnToBig e ;; bD <- bnToBig d ;;
     bP <- bnToBig p ;; bQ <- bnToBig q ;;
     bDp <- bnToBig dp ;; bDq <- bnToBig dq ;; bQinv <- bnToBig qinv ;;
     Ret {| gen_N := bN; gen_E := bE; gen_D := bD; gen_P := bP;
            gen_Q := bQ; gen_Dp := bDp; gen_Dq := bDq; gen_Qinv := bQinv;
            gen_err := None |}).

(** Go's [int(x)] on a 64-bit platform, and [strconv.Itoa]. *)
Definition Go_int (x : Z) : Z := (x + 2^63) mod 2^64 - 2^63.
Definition Itoa (x : Z) : string := NilZero.string_of_int (Z.to_int x).

(** [copy(dst[off:], src)]. *)
Definition copy_at (dst : bytes) (off : nat) (src : bytes) : bytes :=
  firstn off dst ++ fill (skipn off dst) src.

(** The wrappers around the cgo functions used as values. *)
Definition decryptInit (ctx : ptr) : prog Z := C (EVP_PKEY_decrypt_init ctx).
Definition encryptInit (ctx : ptr) : prog Z := C (EVP_PKEY_encrypt_init ctx).
Definition decrypt (ctx : ptr) (out : option N) (outLen : N)
    (input : bytes) (inLen : Z) : prog (Z * bytes * N) :=
  C (EVP_PKEY_decrypt ctx out outLen input inLen).
Definition encrypt (ctx : ptr) (out : option N) (outLen : N)
    (input : bytes) (inLen : Z) : prog (Z * bytes * N) :=
  C (EVP_PKEY_encrypt ctx out outLen input inLen).

(** Taken as parameters: the padding constants of goboringcrypto.h, the
    type behind [hash.Hash] and the two digest lookups (a nil result
    means the hash is not supported), all declared outside the files at
    hand, and the package variable [strictFIPS], which boring.go
    initialises to false. *)
Class externals := {
  GO_RSA_PKCS1_PADDING : Z;
  GO_RSA_NO_PADDING : Z;
  GO_RSA_PKCS1_OAEP_PADDING : Z;
  GO_RSA_PKCS1_PSS_PADDING : Z;
  hash_Hash : Type;
  hashToMD : option hash_Hash -> ptr;
  cryptoHashToMD : N -> ptr;
  strictFIPS : bool }.

Section Binding.
Context {X : externals}.

(** [PanicIfStrictFIPS] is declared outside the files at hand.  It is
    modelled after the comment on [strictFIPS] in boring.go ("enables
    strict FIPS mode, in which the API panics on non-compliant use"):
    it panics with its message when the variable is true and does
    nothing otherwise.  No call is made on either path. *)
Definition PanicIfStrictFIPS (msg : string) : prog unit :=
  if strictFIPS then Panic msg else Ret tt.

Definition unsupported : string := "crypto/rsa: unsupported hash function".

(** The deferred closure of [setupRSA], over its named results. *)
Definition setupRSA_deferred (res : ptr * ptr * option error)
    : prog (ptr * ptr * option error) :=
  let '(pkey, ctx, err) := res in
  match err with
  | Some _ =>
      pkey' <- (if negb (is_nil pkey)
                then C (EVP_PKEY_free pkey) ;; Ret nil else Ret pkey) ;;
      ctx' <- (if negb (is_nil ctx)
               then C (EVP_PKEY_CTX_free ctx) ;; Ret nil else Ret ctx) ;;
      Ret (pkey', ctx', err)
  | None => Ret res
  end.

(** [C.malloc] as cgo provides it: it never returns nil; when the C
    function answers nil the Go runtime ends the program. *)
Definition C_malloc (size : Z) : prog ptr :=
  p <- C (malloc size) ;;
  if is_nil p then Panic "runtime: C malloc failed" else Ret p.

(** The block under [padding == GO_RSA_PKCS1_OAEP_PADDING]; [Some e]
    is an early [return nil, nil, e].  The copy of the label goes
    through a [[1 << 30]byte] array sliced to [len(label)], which
    panics for a longer label. *)
Definition setupRSA_oaep (ctx : ptr) (h : option hash_Hash) (label : bytes)
    : prog (option error) :=
  let md := hashToMD h in
  if is_nil md then Ret (Some (errors_New unsupported)) else
  r <- C (EVP_PKEY_CTX_set_rsa_oaep_md ctx md) ;;
  if r =? 0 then Ret (Some (NewOpenSSLError "EVP_PKEY_set_rsa_oaep_md failed"))
  else
  clabel <- C_malloc (C_size_t (len label)) ;;
  if is_nil clabel then Ret (Some (NewOpenSSLError "malloc failed")) else
  if 2^30 <? len label then Panic "slice bounds out of range" else
  C (copy_to_C clabel label) ;;
  r <- C (EVP_PKEY_CTX_set0_rsa_oaep_label ctx clabel (C_size_t (len label))) ;;
  if r =? 0
  then Ret (Some (NewOpenSSLError "EVP_PKEY_CTX_set0_rsa_oaep_label failed"))
  else Ret None.

(** The block under [padding == GO_RSA_PKCS1_PSS_PADDING]. *)
Definition setupRSA_pss (ctx : ptr) (saltLen : Z) (ch : N)
    : prog (option error) :=
  e <- (if negb (saltLen =? 0) then
          r <- C (EVP_PKEY_CTX_set_rsa_pss_saltlen ctx (C_int saltLen)) ;;
          if r =? 0
          then Ret (Some (NewOpenSSLError "EVP_PKEY_set_rsa_pss_saltlen failed"))
          else Ret None
        else Ret None) ;;
  match e with
  | Some _ => Ret e
  | None =>
      let md := cryptoHashToMD ch in
      if is_nil md then Ret (Some (errors_New unsupported)) else
      r <- C (EVP_PKEY_CTX_set_rsa_mgf1_md ctx md) ;;
      if r =? 0
      then Ret (Some (NewOpenSSLError "EVP_PKEY_set_rsa_mgf1_md failed"))
      else Ret None
  end.

Definition fail3 (e : error) : prog (ptr * ptr * option error) :=
  Ret (nil, nil, Some e).

(** The body of [setupRSA]: what each [return] stores in the named
    results [pkey], [ctx], [err]. *)
Definition setupRSA_body (key : ptr) (padding : Z) (h : option hash_Hash)
    (label : bytes) (saltLen : Z) (ch : N) (init : ptr -> prog Z)
    : prog (ptr * ptr * option error) :=
  pkey <- C EVP_PKEY_new ;;
  if is_nil pkey then fail3 (NewOpenSSLError "EVP_PKEY_new failed") else
  r <- C (EVP_PKEY_set1_RSA pkey key) ;;
  if r =? 0 then fail3 (NewOpenSSLError "EVP_PKEY_set1_RSA failed") else
  ctx <- C (EVP_PKEY_CTX_new pkey) ;;
  if is_nil ctx then fail3 (NewOpenSSLError "EVP_PKEY_CTX_new failed") else
  r <- init ctx ;;
  if r =? 0 then fail3 (NewOpenSSLError "EVP_PKEY_operation_init failed") else
  r <- C (EVP_PKEY_CTX_set_rsa_padding ctx padding) ;;
  if r =? 0 then fail3 (NewOpenSSLError "EVP_PKEY_CTX_set_rsa_padding failed")
  else
  e1 <- (if padding =? GO_RSA_PKCS1_OAEP_PADDING
         then setupRSA_oaep ctx h label else Ret None) ;;
  match e1 with
  | Some e => fail3 e
  | None =>
      e2 <- (if padding =? GO_RSA_PKCS1_PSS_PADDING
             then setupRSA_pss ctx saltLen ch else Ret None) ;;
      match e2 with
      | Some e => fail3 e
      | None => Ret (pkey, ctx, None)
      end
  end.

Definition setupRSA (key : ptr) (padding : Z) (h : option hash_Hash)
    (label : bytes) (saltLen : Z) (ch : N) (init : ptr -> prog Z)
    : prog (ptr * ptr * option error) :=
  defer_named setupRSA_deferred
    (setupRSA_body key padding h label saltLen ch init).

Definition cryptRSA (key : ptr) (padding : Z) (h : option hash_Hash)
    (label : bytes) (saltLen : Z) (ch : N) (init : ptr -> prog Z)
    (crypt : ptr -> option N -> N -> bytes -> Z -> prog (Z * bytes * N))
    (input : bytes) : prog (option bytes * option error) :=
  '(pkey, ctx, err) <- setupRSA key padding h label saltLen ch init ;;
  match err with
  | Some e => Ret (None, Some e)
  | None =>
      defer (C (EVP_PKEY_free pkey))
        (defer (C (EVP_PKEY_CTX_free ctx))
           ('(r, _, outLen) <- crypt ctx None 0%N input (C_uint (len input)) ;;
            if r =? 0
            then Ret (None, Some (NewOpenSSLError "EVP_PKEY_decrypt/encrypt failed"))
            else
            let out := make outLen in
            '(r, written, outLen) <-
               crypt ctx (Some outLen) outLen input (C_uint (len input)) ;;
            if r <=? 0
            then Ret (None, Some (NewOpenSSLError "EVP_PKEY_decrypt/encrypt failed"))
            else
            s <- slice_to (fill out written) outLen ;;
            Ret (Some s, None)))
  end.

Definition DecryptRSAOAEP (h : option hash_Hash) (priv : PrivateKeyRSA)
    (ciphertext label : bytes) :=
  cryptRSA (priv_key priv) GO_RSA_PKCS1_OAEP_PADDING h label 0 0%N
           decryptInit decrypt ciphertext.

Definition EncryptRSAOAEP (h : option hash_Hash) (pub : PublicKeyRSA)
    (msg label : bytes) :=
  cryptRSA (pub_key pub) GO_RSA_PKCS1_OAEP_PADDING h label 0 0%N
           encryptInit encrypt msg.

Definition DecryptRSAPKCS1 (priv : PrivateKeyRSA) (ciphertext : bytes) :=
  cryptRSA (priv_key priv) GO_RSA_PKCS1_PADDING None [] 0 0%N
           decryptInit decrypt ciphertext.

Definition EncryptRSAPKCS1 (pub : PublicKeyRSA) (msg : bytes) :=
  cryptRSA (pub_key pub) GO_RSA_PKCS1_PADDING None [] 0 0%N
           encryptInit encrypt msg.

Definition DecryptRSANoPadding (priv : PrivateKeyRSA) (ciphertext : bytes) :=
  cryptRSA (priv_key priv) GO_RSA_NO_PADDING None [] 0 0%N
           decryptInit decrypt ciphertext.

Definition EncryptRSANoPadding (pub : PublicKeyRSA) (msg : bytes) :=
  cryptRSA (pub_key pub) GO_RSA_NO_PADDING None [] 0 0%N
           encryptInit encrypt msg.

Definition SignRSAPSS (priv : PrivateKeyRSA) (h : N) (hashed : bytes)
    (saltLen : Z) : prog (option bytes * option error) :=
  let md := cryptoHashToMD h in
  if is_nil md then Ret (None, Some (errors_New unsupported)) else
  let saltLen := if saltLen =? 0 then -1 else saltLen in
  size <- C (RSA_size (priv_key priv)) ;;
  let out := make size in
  '(r, written, outLen) <-
     C (RSA_sign_pss_mgf1 (priv_key priv) (C_uint (len out))
          hashed (C_uint (len hashed)) md (C_int saltLen)) ;;
  if r =? 0 then Ret (None, Some (NewOpenSSLError "RSA_sign_pss_mgf1 failed"))
  else
  s <- slice_to (fill out written) outLen ;;
  Ret (Some s, None).

Definition VerifyRSAPSS (pub : PublicKeyRSA) (h : N) (hashed sig : bytes)
    (saltLen : Z) : prog (option error) :=
  let md := cryptoHashToMD h in
  if is_nil md then Ret (Some (errors_New unsupported)) else
  let saltLen := if saltLen =? 0 then -2 else saltLen in
  r <- C (RSA_verify_pss_mgf1 (pub_key pub) hashed (C_uint (len hashed))
            md (C_int saltLen) sig (C_uint (len sig))) ;;
  if r =? 0 then Ret (Some (NewOpenSSLError "RSA_verify_pss_mgf1 failed"))
  else Ret None.

Definition SignRSAPKCS1v15 (priv : PrivateKeyRSA) (h : N) (msg : bytes)
    (msgIsHashed : bool) : prog (option bytes * option error) :=
  size <- C (RSA_size (priv_key priv)) ;;
  let out := make size in
  let md := cryptoHashToMD h in
  if is_nil md
  then Ret (None, Some (errors_New
              (unsupported ++ ": " ++ Itoa (Go_int (Z.of_N h)))%string))
  else
  if msgIsHashed then
    PanicIfStrictFIPS "You must provide a raw unhashed message for PKCS1v15 signing and use HashSignPKCS1v15 instead of SignPKCS1v15" ;;
    nid <- C (EVP_MD_type md) ;;
    '(r, written, outLen) <-
       C (RSA_sign nid msg (C_uint (len msg)) (priv_key priv)) ;;
    if r =? 0 then Ret (None, Some (NewOpenSSLError "RSA_sign failed")) else
    s <- slice_to (fill out written) outLen ;;
    Ret (Some s, None)
  else
    '(r, written, outLen) <-
       C (EVP_RSA_sign md msg (C_uint (len msg)) (priv_key priv)) ;;
    if r =? 0 then Ret (None, Some (NewOpenSSLError "RSA_sign failed")) else
    s <- slice_to (fill out written) outLen ;;
    Ret (Some s, None).

(** Lines 319-325 of [VerifyRSAPKCS1v15]: the signature handed on. *)
Definition pad_sig (size : N) (sig : bytes) : bytes :=
  if len sig <? Z.of_N size then
    let zsig := make size in
    copy_at zsig (List.length zsig - List.length sig) sig
  else sig.

Definition VerifyRSAPKCS1v15 (pub : PublicKeyRSA) (h : N) (msg sig : bytes)
    (msgIsHashed : bool) : prog (option error) :=
  size <- C (RSA_size (pub_key pub)) ;;
  let sig := pad_sig size sig in
  let md := cryptoHashToMD h in
  if is_nil md then Ret (Some (errors_New unsupported)) else
  if msgIsHashed then
    PanicIfStrictFIPS "You must provide a raw unhashed message for PKCS1v15 verification and use HashVerifyPKCS1v15 instead of VerifyPKCS1v15" ;;
    nid <- C (EVP_MD_type md) ;;
    r <- C (RSA_verify nid msg (C_uint (len msg)) sig (C_uint (len sig))
              (pub_key pub)) ;;
    if r =? 0 then Ret (Some (NewOpenSSLError "RSA_verify failed"))
    else Ret None
  else
    r <- C (EVP_RSA_verify md msg (C_uint (len msg)) sig (C_uint (len sig))
              (pub_key pub)) ;;
    if r =? 0 then Ret (Some (NewOpenSSLError "RSA_verify failed"))
    else Ret None.

(** The six exported encryption and decryption operations, each with
    the padding constant its name announces. *)
Inductive rsa_op :=
| OpDecryptRSAOAEP | OpEncryptRSAOAEP
| OpDecryptRSAPKCS1 | OpEncryptRSAPKCS1
| OpDecryptRSANoPadding | OpEncryptRSANoPadding.

Definition named_flag (op : rsa_op) : Z :=
  match op with
  | OpDecryptRSAOAEP | OpEncryptRSAOAEP => GO_RSA_PKCS1_OAEP_PADDING
  | OpDecryptRSAPKCS1 | OpEncryptRSAPKCS1 => GO_RSA_PKCS1_PADDING
  | OpDecryptRSANoPadding | OpEncryptRSANoPadding => GO_RSA_NO_PADDING
  end.

(** The label an operation hands to [cryptRSA]: the caller's for OAEP,
    nil otherwise. *)
Definition label_of (op : rsa_op) (label : bytes) : bytes :=
  match op with
  | OpDecryptRSAOAEP | OpEncryptRSAOAEP => label
  | _ => []
  end.

Definition hash_of (op : rsa_op) (h : option hash_Hash)
    : option hash_Hash :=
  match op with
  | OpDecryptRSAOAEP | OpEncryptRSAOAEP => h
  | _ => None
  end.

Definition exported (op : rsa_op) (h : option hash_Hash)
    (priv : PrivateKeyRSA) (pub : PublicKeyRSA) (input label : bytes)
    : prog (option bytes * option error) :=
  match op with
  | OpDecryptRSAOAEP => DecryptRSAOAEP h priv input label
  | OpEncryptRSAOAEP => EncryptRSAOAEP h pub input label
  | OpDecryptRSAPKCS1 => DecryptRSAPKCS1 priv input
  | OpEncryptRSAPKCS1 => EncryptRSAPKCS1 pub input
  | OpDecryptRSANoPadding => DecryptRSANoPadding priv input
  | OpEncryptRSANoPadding => EncryptRSANoPadding pub input
  end.

Definition is_decrypt (op : rsa_op) : bool :=
  match op with
  | OpDecryptRSAOAEP | OpDecryptRSAPKCS1 | OpDecryptRSANoPadding => true
  | _ => false
  end.

(** The key an operation works on, and the call of [setupRSA] that its
    [cryptRSA] starts with. *)
Definition key_of (op : rsa_op) (priv : PrivateKeyRSA) (pub : PublicKeyRSA)
    : ptr :=
  if is_decrypt op then priv_key priv else pub_key pub.

Definition setup_of (op : rsa_op) (h : option hash_Hash)
    (priv : PrivateKeyRSA) (pub : PublicKeyRSA) (label : bytes)
    : prog (ptr * ptr * option error) :=
  setupRSA (key_of op priv pub) (named_flag op) (hash_of op h)
    (label_of op label) 0 0%N
    (if is_decrypt op then decryptInit else encryptInit).


Definition crypt_call (op : rsa_op) (ctx : ptr) (out : option N) (outLen : N)
    (input : bytes) (inLen : Z) : call :=
  if is_decrypt op then EVP_PKEY_decrypt ctx out outLen input inLen
  else EVP_PKEY_encrypt ctx out outLen input inLen.


End Binding.

(** What the [return] statements of [setupRSA] store: nil handles next
    to every error. *)
Definition cleared (res : ptr * ptr * option error) : Prop :=
  let '(pkey, ctx, err) := res in
  err <> None -> pkey = nil /\ ctx = nil.

(* ================================================================== *)
(** * A reference foreign library                                      *)
(* ================================================================== *)

(** A small executable stand-in for the foreign library.  A big-number
    object is the minimal big-endian byte string of its value; handles
    are fresh addresses; every fallible call succeeds.  Key generation
    installs one fixed toy key (n = 61 * 53). *)
Module RefLib.

Record world := {
  next : N;                           (* next unused address *)
  bignums : list (ptr * bytes);       (* BN objects *)
  rsa_keys : list (ptr * list ptr);   (* key -> n e d p q dp dq qinv *)
  rsa_size : N                        (* modulus size in bytes *)
}.

Definition init : world :=
  {| next := 1; bignums := []; rsa_keys := []; rsa_size := 4 |}.

Fixpoint trim (b : bytes) : bytes :=
  match b with
  | x00 :: t => trim t
  | _ => b
  end.

Fixpoint lookup {A} (p : ptr) (m : list (ptr * A)) : option A :=
  match m with
  | [] => None
  | (q, a) :: t => if N.eqb p q then Some a else lookup p t
  end.

Definition alloc (w : world) : ptr * world :=
  (next w, {| next := N.succ (next w); bignums := bignums w;
              rsa_keys := rsa_keys w; rsa_size := rsa_size w |}).

Definition new_bn (raw : bytes) (w : world) : ptr * world :=
  (next w, {| next := N.succ (next w);
              bignums := (next w, trim raw) :: bignums w;
              rsa_keys := rsa_keys w; rsa_size := rsa_size w |}).

Definition bn_bytes (bn : ptr) (w : world) : bytes :=
  match lookup bn (bignums w) with Some b => b | None => [] end.

Definition toy_key : list Z := [3233; 17; 2753; 61; 53; 53; 49; 38].

Fixpoint new_bns (vals : list Z) (w : world) : list ptr * world :=
  match vals with
  | [] => ([], w)
  | v :: t => let '(p, w1) := new_bn (Bytes v) w in
              let '(ps, w2) := new_bns t w1 in (p :: ps, w2)
  end.

Definition generate (key : ptr) (w : world) : Z * world :=
  let '(ps, w1) := new_bns toy_key w in
  (1, {| next := next w1; bignums := bignums w1;
         rsa_keys := (key, ps) :: rsa_keys w1; rsa_size := rsa_size w1 |}).

Definition part (key : ptr) (i : nat) (w : world) : ptr :=
  match lookup key (rsa_keys w) with
  | Some ps => nth i ps nil
  | None => nil
  end.

(** Signing and encryption echo their input, cut to the modulus size. *)
Definition echo (input : bytes) (w : world) : Z * bytes * N :=
  let out := firstn (N.to_nat (rsa_size w)) input in
  (1, out, N.of_nat (List.length out)).

Definition crypt (out : option N) (input : bytes) (w : world)
    : Z * bytes * N :=
  match out with
  | None => (1, [], rsa_size w)
  | Some _ => echo input w
  end.

Definition lib (c : call) (w : world) : resp c * world :=
  match c return resp c * world with
  | RSA_new | EVP_PKEY_new | EVP_PKEY_CTX_new _ | malloc _ => alloc w
  | BN_bin2bn raw _ => new_bn raw w
  | RSA_free _ | EVP_PKEY_free _ | EVP_PKEY_CTX_free _
  | copy_to_C _ _ => (tt, w)
  | RSA_generate_key_fips key _ => generate key w
  | RSA_get0_key key => (part key 0 w, part key 1 w, part key 2 w, w)
  | RSA_get0_factors key => (part key 3 w, part key 4 w, w)
  | RSA_get0_crt_params key => (part key 5 w, part key 6 w, part key 7 w, w)
  | RSA_size _ => (rsa_size w, w)
  | BN_num_bytes bn => (N.of_nat (List.length (bn_bytes bn w)), w)
  | BN_bn2bin bn _ => (bn_bytes bn w, w)
  | EVP_PKEY_decrypt _ out _ input _
  | EVP_PKEY_encrypt _ out _ input _ => (crypt out input w, w)
  | RSA_sign_pss_mgf1 _ _ input _ _ _ | RSA_sign _ input _ _
  | EVP_RSA_sign _ input _ _ => (echo input w, w)
  | _ => (1, w)
  end.

(** A library that fails where [lib] succeeds on one chosen call. *)
Definition failing_set1 (c : call) (w : world) : resp c * world :=
  match c return resp c * world with
  | EVP_PKEY_set1_RSA _ _ => (0, w)
  | c' => lib c' w
  end.

End RefLib.

(** One instantiation of the parameters, to evaluate the functions on
    concrete inputs: OpenSSL's padding numbers, SHA-1 to SHA-512 known
    under their [crypto.Hash] numbers 3 to 7, [strictFIPS] as the source
    initialises it. *)
Definition sample : externals :=
  {| GO_RSA_PKCS1_PADDING := 1;
     GO_RSA_NO_PADDING := 3;
     GO_RSA_PKCS1_OAEP_PADDING := 4;
     GO_RSA_PKCS1_PSS_PADDING := 6;
     hash_Hash := N;
     hashToMD := fun h => match h with
                          | Some n => if ((3 <=? n) && (n <=? 7))%N
                                      then (100 + n)%N else nil
                          | None => nil
                          end;
     cryptoHashToMD := fun n => if ((3 <=? n) && (n <=? 7))%N
                                then (100 + n)%N else nil;
     strictFIPS := false |}.

(* ================================================================== *)
(** * The ECDSA test-vector harness ([TestVectors])                    *)
(* ================================================================== *)

Module Vectors.

Inductive curve := P224 | P256 | P384 | P521.
Inductive hashfn := sha1_New | sha256_New224 | sha256_New
                  | sha512_New384 | sha512_New.

Record PublicKey := { Curve : option curve; X : bigInt; Y : bigInt }.

(** Declared outside the file and taken as parameters: the switches
    [boring.Enabled] and [testing.Short()], the hex readers, the hash
    functions, and the two verification entry points under test. *)
Class externals := {
  boring_Enabled : bool;
  testing_Short : bool;
  SetString16 : string -> option Z;
  hex_DecodeString : string -> option bytes;
  Sum : hashfn -> bytes -> bytes;
  Verify : PublicKey -> bytes -> bigInt -> bigInt -> bool;
  HashVerify : PublicKey -> bytes -> bigInt -> bigInt -> N -> bool }.

(** Go string operations, on Rocq strings. *)
Fixpoint drop (n : nat) (s : string) : string :=
  match n, s with
  | S n', String _ t => drop n' t
  | _, _ => s
  end.

Definition take (n : nat) (s : string) : string := substring 0 n s.

Definition HasPrefix (s p : string) : bool := String.prefix p s.

Definition HasSuffix (s suf : string) : bool :=
  (String.length suf <=? String.length s)%nat
  && String.eqb (drop (String.length s - String.length suf) s) suf.

(** [strings.SplitN(s, ",", 2)]: the part before the first comma and,
    when there is a comma, the part after it. *)
Fixpoint SplitN2 (s : string) : string * option string :=
  match s with
  | EmptyString => (EmptyString, None)
  | String c t =>
      if Ascii.eqb c "," then (EmptyString, Some t)
      else let '(a, b) := SplitN2 t in (String c a, b)
  end.

(** The variables of the loop. *)
Record state := {
  lineNo : Z;
  h : option hashfn;
  ch : N;
  msg : bytes;
  hashed : bytes;
  r : bigInt;
  s : bigInt;
  pub : PublicKey }.

Definition start : state :=
  {| lineNo := 1; h := None; ch := 0; msg := []; hashed := [];
     r := None; s := None;
     pub := {| Curve := None; X := None; Y := None |} |}.

(** One round of the loop ends by going on ([continue] or the end of
    the body), by [t.Fatalf], or by a panic. *)
Inductive verdict :=
| Running (st : state)
| Failed (message : string)
| Crashed (message : string).

Definition crlf : string := String "013" (String "010" EmptyString).

Section Harness.
Context {E : externals}.

Definition on_line (n : Z) : string := Itoa n.

Definition fromHex (x : string) (k : bigInt -> verdict) : verdict :=
  match SetString16 x with
  | Some v => k (Some v)
  | None => Crashed "bad hex"
  end.

Definition set_curve (st : state) (c : option curve) : state :=
  {| lineNo := lineNo st; h := h st; ch := ch st; msg := msg st;
     hashed := hashed st; r := r st; s := s st;
     pub := {| Curve := c; X := X (pub st); Y := Y (pub st) |} |}.

Definition set_hash (st : state) (f : option hashfn) (c : N) : state :=
  {| lineNo := lineNo st; h := f; ch := c; msg := msg st;
     hashed := hashed st; r := r st; s := s st; pub := pub st |}.

(** The second switch of a section header, on [parts[1]]. *)
Definition header_hash (st : state) (name : string) : state :=
  if String.eqb name "SHA-1" then set_hash st (Some sha1_New) 3
  else if String.eqb name "SHA-224" then set_hash st (Some sha256_New224) 4
  else if String.eqb name "SHA-256" then set_hash st (Some sha256_New) 5
  else if String.eqb name "SHA-384" then set_hash st (Some sha512_New384) 6
  else if String.eqb name "SHA-512" then set_hash st (Some sha512_New) 7
  else set_hash st None (ch st).

(** A line that starts with '['. *)
Definition header (st : state) (line : string) : verdict :=
  if (String.length line <? 2)%nat then Crashed "slice bounds out of range"
  else
  let line := drop 1 (take (String.length line - 1) line) in
  let '(p0, p1) := SplitN2 line in
  let cont (st : state) :=
    match p1 with
    | Some name => Running (header_hash st name)
    | None => Crashed "index out of range"
    end in
  if String.eqb p0 "P-224" then
    if boring_Enabled then Running st
    else cont (set_curve st (Some P224))
  else if String.eqb p0 "P-256" then cont (set_curve st (Some P256))
  else if String.eqb p0 "P-384" then cont (set_curve st (Some P384))
  else if String.eqb p0 "P-521" then cont (set_curve st (Some P521))
  else cont (set_curve st None).

(** The case [strings.HasPrefix(line, "Result = ")]. *)
Definition check_result (st : state) (f : hashfn) (line : string)
    : verdict :=
  match String.get 9 line with
  | None => Crashed "index out of range"
  | Some c =>
      let expected := Ascii.eqb c "P" in
      let hashed' := Sum f (msg st) in
      let st' := {| lineNo := lineNo st; h := h st; ch := ch st;
                    msg := msg st; hashed := hashed';
                    r := r st; s := s st; pub := pub st |} in
      let got := if boring_Enabled
                 then HashVerify (pub st) (msg st) (r st) (s st) (ch st)
                 else Verify (pub st) hashed' (r st) (s st) in
      if negb (Bool.eqb got expected)
      then Failed ("incorrect result on line " ++ on_line (lineNo st))
      else Running st'
  end.

(** The switch over the variables of a record. *)
Definition variable (st : state) (f : hashfn) (line : string) : verdict :=
  if HasPrefix line "Msg = " then
    match hex_DecodeString (drop 6 line) with
    | Some m =>
        Running {| lineNo := lineNo st; h := h st; ch := ch st; msg := m;
                   hashed := hashed st; r := r st; s := s st;
                   pub := pub st |}
    | None => Failed ("failed to decode message on line "
                        ++ on_line (lineNo st))
    end
  else if HasPrefix line "Qx = " then
    fromHex (drop 5 line) (fun v =>
      Running {| lineNo := lineNo st; h := h st; ch := ch st;
                 msg := msg st; hashed := hashed st; r := r st; s := s st;
                 pub := {| Curve := Curve (pub st); X := v;
                           Y := Y (pub st) |} |})
  else if HasPrefix line "Qy = " then
    fromHex (drop 5 line) (fun v =>
      Running {| lineNo := lineNo st; h := h st; ch := ch st;
                 msg := msg st; hashed := hashed st; r := r st; s := s st;
                 pub := {| Curve := Curve (pub st); X := X (pub st);
                           Y := v |} |})
  else if HasPrefix line "R = " then
    fromHex (drop 4 line) (fun v =>
      Running {| lineNo := lineNo st; h := h st; ch := ch st;
                 msg := msg st; hashed := hashed st; r := v; s := s st;
                 pub := pub st |})
  else if HasPrefix line "S = " then
    fromHex (drop 4 line) (fun v =>
      Running {| lineNo := lineNo st; h := h st; ch := ch st;
                 msg := msg st; hashed := hashed st; r := r st; s := v;
                 pub := pub st |})
  else if HasPrefix line "Result = " then check_result st f line
  else Failed ("unknown variable on line " ++ on_line (lineNo st)
                 ++ ": " ++ line).

(** The loop body, from [lineNo++] on, for one non-empty chunk that
    [buf.ReadString] returned. *)
Definition step (st : state) (raw : string) : verdict :=
  let st := {| lineNo := lineNo st + 1; h := h st; ch := ch st;
               msg := msg st; hashed := hashed st; r := r st; s := s st;
               pub := pub st |} in
  if negb (HasSuffix raw crlf)
  then Failed ("bad line ending (expected \r\n) on line "
                 ++ on_line (lineNo st))
  else
  let line := take (String.length raw - 2) raw in
  match line with
  | EmptyString => Running st
  | String c _ =>
      if Ascii.eqb c "#" then Running st
      else if Ascii.eqb c "[" then header st line
      else
        match h st, Curve (pub st) with
        | Some f, Some _ => variable st f line
        | _, _ => Running st
        end
  end.

(** The loop over the chunks read; [eof] tells whether the read that
    ended the input reported [io.EOF]. *)
Fixpoint loop (st : state) (chunks : list string) (eof : bool) : verdict :=
  match chunks with
  | [] => if eof then Running st else Failed "error reading from input"
  | raw :: rest =>
      if (String.length raw =? 0)%nat then Failed "error reading from input"
      else match step st raw with
           | Running st' => loop st' rest eof
           | v => v
           end
  end.

(** [TestVectors]; [file] is what opening and reading
    testdata/SigVer.rsp.bz2 gives, [None] when it cannot be opened.
    The test passes when the result is [Running]. *)
Definition TestVectors (file : option (list string * bool)) : verdict :=
  if testing_Short then Running start
  else match file with
       | None => Failed "open testdata/SigVer.rsp.bz2"
       | Some (chunks, eof) => loop start chunks eof
       end.
End Harness.

(** A harness instance for evaluation: hex strings are not decoded,
    and both verification functions accept everything. *)
Definition accept_all (boring : bool) : externals :=
  {| boring_Enabled := boring;
     testing_Short := false;
     SetString16 := fun _ => Some 1;
     hex_DecodeString := fun _ => Some [];
     Sum := fun _ m => m;
     Verify := fun _ _ _ _ => true;
     HashVerify := fun _ _ _ _ _ => true |}.

End Vectors.

(* ================================================================== *)
(** * misc/boring/build.release                                        *)
(* ================================================================== *)

Module Release.

(** The external commands the script runs.  A pipeline is one command:
    under [set -e] without [pipefail] only its last status counts. *)
Inductive cmd : Type :=
| rev_parse_12 (rev : string)     (* git rev-parse "$rev" | awk ... *)
| tag_of (rev : string)           (* git log ... | grep 'tag: go' | sed ... *)
| show_VERSION (commit : string)  (* git show "$commit:misc/boring/VERSION" *)
| grep_RELEASES (pattern : string) (* grep "<pattern>" RELEASES >/dev/null *)
| echo_stderr (text : string)
| git_log_n1 (commit : string)
| mktemp_d
| go_get_release (dir : string)   (* (cd "$dir"; go get .../cmd/release) *)
| shortgo_of (base : string)      (* echo "$base" | perl -pe ... *)
| release (dir target commit version : string)
| ls_l (file : string)
| sha256_of (file : string)       (* sha "$file" | awk '{print $1}' *)
| tar_extract_go (output : string) (* tar -xzf ... >/tmp/go.release.$$ *)
| go_tool_nm
| grep_nm (pattern : string)
| egrep_nm (pattern : string)
| gsutil_cp (file dest : string)
| append_RELEASES (line : string)
| rm_rf (path : string)           (* the first EXIT trap *)
| rm_f_tmp.                       (* the second EXIT trap *)

(** A command that builds or publishes. *)
Definition builds_or_publishes (c : cmd) : bool :=
  match c with
  | mktemp_d | go_get_release _ | release _ _ _ _ | tar_extract_go _
  | go_tool_nm | gsutil_cp _ _ | append_RELEASES _ => true
  | _ => false
  end.

(** A script: it exits, or runs a command and goes on with the
    command's exit status and standard output. *)
Inductive sh : Type :=
| Exit (status : Z)
| Run (c : cmd) (k : Z * string -> sh).

(** A simple command under [set -e]; [trap] is the pending EXIT trap. *)
Definition leave (trap : option cmd) (status : Z) : sh :=
  match trap with
  | Some t => Run t (fun _ => Exit status)
  | None => Exit status
  end.

Definition must (trap : option cmd) (c : cmd) (k : string -> sh) : sh :=
  Run c (fun '(st, out) => if st =? 0 then k out else leave trap st).

(** [echo ... >&2] is a simple command like the others: under [set -e]
    the script ends with its status when the write fails. *)
Definition say (trap : option cmd) (text : string) (k : sh) : sh :=
  must trap (echo_stderr text) (fun _ => k).

Definition bucket : string := "gs://go-boringcrypto/".
Definition site : string := "https://go-boringcrypto.storage.googleapis.com/".

(** Lines 59 to 104: build, check and publish. *)
Definition build_and_publish (base commit version : string) : sh :=
  must None mktemp_d (fun dir =>
  let t1 := Some (rm_rf dir) in
  must t1 (go_get_release dir) (fun _ =>
  must t1 (shortgo_of base) (fun _ =>
  must t1 (release dir "linux-amd64" commit version) (fun _ =>
  must t1 (release dir "src" commit version) (fun _ =>
  let output := (version ++ ".linux-amd64.tar.gz")%string in
  must t1 (ls_l output) (fun _ =>
  must t1 (sha256_of output) (fun sha256 =>
  let outputsrc := (version ++ ".src.tar.gz")%string in
  must t1 (ls_l outputsrc) (fun _ =>
  must t1 (sha256_of outputsrc) (fun sha256src =>
  let t2 := Some rm_f_tmp in
  must t2 (tar_extract_go output) (fun _ =>
  must t2 go_tool_nm (fun _ =>
  Run (grep_nm "crypto/internal/boring/sig.BoringCrypto") (fun '(st, _) =>
  if negb (st =? 0) then
    say t2 "built release but did NOT find sig.BoringCrypto in go command!"
      (leave t2 2)
  else
  Run (egrep_nm "crypto/sha256\.\(\*digest\)") (fun '(st, _) =>
  if st =? 0 then
    say t2 "built release but DID find sha256.(*digest) in go command unexpectedly!"
      (leave t2 2)
  else
  must t2 (gsutil_cp output bucket) (fun _ =>
  let url := (site ++ output)%string in
  must t2 (gsutil_cp outputsrc bucket) (fun _ =>
  let urlsrc := (site ++ outputsrc)%string in
  must t2 (append_RELEASES (version ++ " " ++ commit ++ " linux-amd64 "
                              ++ url ++ " " ++ sha256)%string) (fun _ =>
  must t2 (append_RELEASES (version ++ " " ++ commit ++ " src "
                              ++ urlsrc ++ " " ++ sha256src)%string) (fun _ =>
  leave t2 0))))))))))))))))).

(** The whole script, on its command-line arguments. *)
Definition build_release (args : list string) : sh :=
  match args with
  | _ :: _ :: _ => say None "usage: build.release [git-rev]" (Exit 2)
  | _ =>
    let rev := match args with [a] => a | _ => "HEAD" end in
    must None (rev_parse_12 rev) (fun commit =>
    if String.eqb commit "" then
      say None "cannot find commit in git history" (Exit 2)
    else
    must None (tag_of rev) (fun base =>
    if String.eqb base "" then
      say None ("cannot find go release tag in git history for " ++ rev)%string (Exit 2)
    else
    must None (show_VERSION commit) (fun boring =>
    if String.eqb boring "" then
      say None ("missing BORINGVERSION file in " ++ commit)%string (Exit 2)
    else
    let version := (base ++ "b" ++ boring)%string in
    Run (grep_RELEASES ("^" ++ version ++ " ")%string) (fun '(st, _) =>
    if st =? 0 then
      say None ("found " ++ version ++ " in RELEASES - not rereleasing")%string (Exit 2)
    else
    say None "" (
    say None ("building " ++ version ++ " from " ++ commit)%string (
    say None "" (
    must None (git_log_n1 commit) (fun _ =>
    say None "" (
    build_and_publish base commit version)))))))))
  end.

(** Running a script against the tools: exit status and the commands
    run, in order. *)
Section Exec.
Context {W : Type} (tools : cmd -> W -> (Z * string) * W).

Fixpoint exec (p : sh) (w : W) : Z * list cmd :=
  match p with
  | Exit st => (st, [])
  | Run c k =>
      let '(a, w1) := tools c w in
      let '(st, tr) := exec (k a) w1 in
      (st, c :: tr)
  end.
End Exec.

(** Tools for evaluation: commit abcdef012345 on tag go1.12.1 with
    BoringCrypto version 4; [found] is what the grep over RELEASES
    answers; everything else succeeds. *)
Definition tools (found : bool) (c : cmd) (w : unit) : Z * string * unit :=
  match c with
  | rev_parse_12 _ => (0, "abcdef012345", w)
  | tag_of _ => (0, "go1.12.1", w)
  | show_VERSION _ => (0, "4", w)
  | grep_RELEASES _ => (if found then 0 else 1, "", w)
  | egrep_nm _ => (1, "", w)
  | mktemp_d => (0, "/tmp/tmp.1", w)
  | _ => (0, "", w)
  end%string.

(** The same tools with standard error closed: every [echo ... >&2]
    fails with status 1. *)
Definition tools_mute (found : bool) (c : cmd) (w : unit)
    : Z * string * unit :=
  match c with
  | echo_stderr _ => (1, "", w)
  | _ => tools found c w
  end.

End Release.

(* ================================================================== *)
(** * More of rsa.go and boring.go                                     *)
(* ================================================================== *)

Definition is_RSA_free (c : call) : bool :=
  match c with RSA_free _ => true | _ => false end.

(** The calls that hand a message to a signing or verifying routine
    together with its digest: as a numeric id ([RSA_sign], [RSA_verify],
    after [EVP_MD_type]) or as a digest object ([EVP_RSA_sign],
    [EVP_RSA_verify]). *)
Definition by_nid (c : call) : bool :=
  match c with
  | EVP_MD_type _ | RSA_sign _ _ _ _ | RSA_verify _ _ _ _ _ _ => true
  | _ => false
  end.

Definition by_md (c : call) : bool :=
  match c with
  | EVP_RSA_sign _ _ _ _ | EVP_RSA_verify _ _ _ _ _ _ => true
  | _ => false
  end.

Module Boring.

(** [hasSuffix] of boring.go. *)
Definition hasSuffix (s t : string) : bool :=
  (String.length t <? String.length s)%nat
  && String.eqb (Vectors.drop (String.length s - String.length t) s) t.

Definition invalid : string := "boringcrypto: invalid code execution".

(** [Unreachable]; [Enabled] is declared outside the file. *)
Definition Unreachable (Enabled : bool) : outcome unit :=
  if Enabled then Panicked invalid else Returned tt.

(** [UnreachableExceptTests]: the lines printed and how the call ends;
    [arg0] is what [runtime_arg0()] returns. *)
Definition UnreachableExceptTests (Enabled : bool) (arg0 : string)
    : list string * outcome unit :=
  let name := arg0 in
  if Enabled && negb (hasSuffix name "_test") && negb (hasSuffix name ".test")
  then (["boringcrypto: unexpected code execution in " ++ name]%string,
        Panicked invalid)
  else ([], Returned tt).

(** The name of a test binary: something non-empty followed by "_test"
    or ".test". *)
Definition test_binary (name : string) : Prop :=
  exists stem, stem <> "" /\
    (name = (stem ++ "_test")%string \/ name = (stem ++ ".test")%string).

(** [fail.Error]. *)
Definition fail_Error (e : string) : string :=
  ("boringcrypto: " ++ e ++ " failed")%string.

End Boring.

(* ------------------------------------------------------------------ *)
(** ** The harness: states to talk about                               *)
(* ------------------------------------------------------------------ *)

Module Harness.
Import Vectors.

(** The state with the line counter advanced. *)
Definition counted (st : state) : state :=
  {| lineNo := lineNo st + 1; h := h st; ch := ch st; msg := msg st;
     hashed := hashed st; r := r st; s := s st; pub := pub st |}.

(** The state after a line that sets the message, a coordinate of the
    public key, or a half of the signature. *)
Definition after_Msg (st : state) (m : bytes) : state :=
  {| lineNo := lineNo st + 1; h := h st; ch := ch st; msg := m;
     hashed := hashed st; r := r st; s := s st; pub := pub st |}.

Definition after_Qx (st : state) (v : Z) : state :=
  {| lineNo := lineNo st + 1; h := h st; ch := ch st; msg := msg st;
     hashed := hashed st; r := r st; s := s st;
     pub := {| Curve := Curve (pub st); X := Some v; Y := Y (pub st) |} |}.

Definition after_Qy (st : state) (v : Z) : state :=
  {| lineNo := lineNo st + 1; h := h st; ch := ch st; msg := msg st;
     hashed := hashed st; r := r st; s := s st;
     pub := {| Curve := Curve (pub st); X := X (pub st); Y := Some v |} |}.

Definition after_R (st : state) (v : Z) : state :=
  {| lineNo := lineNo st + 1; h := h st; ch := ch st; msg := msg st;
     hashed := hashed st; r := Some v; s := s st; pub := pub st |}.

Definition after_S (st : state) (v : Z) : state :=
  {| lineNo := lineNo st + 1; h := h st; ch := ch st; msg := msg st;
     hashed := hashed st; r := r st; s := Some v; pub := pub st |}.






(** The six chunks of a record: the five variables and the result,
    each ended by "\r\n". *)
Definition record (m qx qy r' s' : string) (c : ascii) (rest : string)
    : list string :=
  map (fun l => l ++ crlf)%string
    ["Msg = " ++ m; "Qx = " ++ qx; "Qy = " ++ qy; "R = " ++ r'; "S = " ++ s';
     "Result = " ++ String c rest]%string.

End Harness.

(* ------------------------------------------------------------------ *)
(** ** Building keys: NewPublicKeyRSA, NewPrivateKeyRSA, bigToBn       *)
(* ------------------------------------------------------------------ *)

Module Keys.

(** The calls of the key constructors: those of [call], the setters and
    [BN_free] of goboringcrypto.h, and [runtime.SetFinalizer], which is
    not a function of the library but registers [finalize] for the key
    object. *)
Inductive kcall : Type :=
| Lib (c : call)
| BN_free (bn : ptr)
| RSA_set0_key (key n e d : ptr)
| RSA_set0_factors (key p q : ptr)
| RSA_set0_crt_params (key dp dq qinv : ptr)
| SetFinalizer (key : ptr).

Definition kresp (c : kcall) : Type :=
  match c with
  | Lib c' => resp c'
  | BN_free _ | SetFinalizer _ => unit
  | _ => Z
  end.

Definition kevent : Type := { c : kcall & kresp c }.

Inductive kprog (R : Type) : Type :=
| KRet (r : R)
| KCall (c : kcall) (k : kresp c -> kprog R).
Arguments KRet {R} r.
Arguments KCall {R} c k.

Fixpoint kbind {A B} (p : kprog A) (f : A -> kprog B) : kprog B :=
  match p with
  | KRet a => f a
  | KCall c k => KCall c (fun x => kbind (k x) f)
  end.

Definition KC (c : kcall) : kprog (kresp c) := KCall c KRet.

Declare Scope kprog_scope.
Delimit Scope kprog_scope with kprog.
Notation "x <- p ;; q" := (kbind p (fun x => q))
  (at level 61, p at next level, right associativity) : kprog_scope.
Notation "' pat <- p ;; q" := (kbind p (fun x => let 'pat := x in q))
  (at level 61, pat pattern, p at next level, right associativity)
  : kprog_scope.
Notation "p ;; q" := (kbind p (fun _ => q))
  (at level 61, right associativity) : kprog_scope.

Section KRun.
Context {W : Type} (lib : forall c : kcall, W -> kresp c * W).

Fixpoint krun {R} (p : kprog R) (w : W) : R * W * list kevent :=
  match p with
  | KRet r => (r, w, [])
  | KCall c k =>
      let '(x, w1) := lib c w in
      let '(r, w2, tr) := krun (k x) w1 in
      (r, w2, existT kresp c x :: tr)
  end.

Definition kresult {R} (p : kprog R) (w : W) : R := fst (fst (krun p w)).
Definition ktrace {R} (p : kprog R) (w : W) : list kevent := snd (krun p w).
Definition kcalls {R} (p : kprog R) (w : W) : list kcall :=
  map (@projT1 kcall kresp) (ktrace p w).
End KRun.

Local Open Scope kprog_scope.

(** [bigToBn(bnp, b)]: [old] is [*bnp] at the call; the result is [*bnp]
    at the return, next to the boolean. *)
Definition bigToBn (old : ptr) (b : bigInt) : kprog (ptr * bool) :=
  cur <- (if negb (is_nil old) then KC (BN_free old) ;; KRet nil
          else KRet old) ;;
  match b with
  | None => KRet (cur, true)
  | Some x =>
      let raw := Bytes x in
      bn <- KC (Lib (BN_bin2bn raw (C_size_t (len raw)))) ;;
      if is_nil bn then KRet (cur, false) else KRet (bn, true)
  end.

Definition BN_failed : error := NewOpenSSLError "BN_bin2bn failed".

(** [NewPublicKeyRSA]; the getter is called with a nil third pointer,
    so the third answer is not used. *)
Definition NewPublicKeyRSA (N E : bigInt)
    : kprog (option PublicKeyRSA * option error) :=
  key <- KC (Lib RSA_new) ;;
  if is_nil key then KRet (None, Some (NewOpenSSLError "RSA_new failed")) else
  '(n, e, _) <- KC (Lib (RSA_get0_key key)) ;;
  '(n, ok) <- bigToBn n N ;;
  if negb ok then KRet (None, Some BN_failed) else
  '(e, ok) <- bigToBn e E ;;
  if negb ok then KRet (None, Some BN_failed) else
  KC (RSA_set0_key key n e nil) ;;
  KC (SetFinalizer key) ;;
  KRet (Some {| pub_key := key |}, None).

(** [NewPrivateKeyRSA]; the chain of [||] stops at the first conversion
    that fails. *)
Definition NewPrivateKeyRSA (N E D P Q Dp Dq Qinv : bigInt)
    : kprog (option PrivateKeyRSA * option error) :=
  key <- KC (Lib RSA_new) ;;
  if is_nil key then KRet (None, Some (NewOpenSSLError "RSA_new failed")) else
  '(n, e, d) <- KC (Lib (RSA_get0_key key)) ;;
  '(p, q) <- KC (Lib (RSA_get0_factors key)) ;;
  '(dp, dq, qinv) <- KC (Lib (RSA_get0_crt_params key)) ;;
  '(n, ok) <- bigToBn n N ;;
  if negb ok then KRet (None, Some BN_failed) else
  '(e, ok) <- bigToBn e E ;;
  if negb ok then KRet (None, Some BN_failed) else
  '(d, ok) <- bigToBn d D ;;
  if negb ok then KRet (None, Some BN_failed) else
  '(p, ok) <- bigToBn p P ;;
  if negb ok then KRet (None, Some BN_failed) else
  '(q, ok) <- bigToBn q Q ;;
  if negb ok then KRet (None, Some BN_failed) else
  '(dp, ok) <- bigToBn dp Dp ;;
  if negb ok then KRet (None, Some BN_failed) else
  '(dq, ok) <- bigToBn dq Dq ;;
  if negb ok then KRet (None, Some BN_failed) else
  '(qinv, ok) <- bigToBn qinv Qinv ;;
  if negb ok then KRet (None, Some BN_failed) else
  KC (RSA_set0_key key n e d) ;;
  KC (RSA_set0_factors key p q) ;;
  KC (RSA_set0_crt_params key dp dq qinv) ;;
  KC (SetFinalizer key) ;;
  KRet (Some {| priv_key := key |}, None).

(** The two [finalize] methods. *)
Definition finalize (key : ptr) : kprog unit := KC (Lib (RSA_free key)).

(** The calls that put numbers into a key, register it, or free it. *)
Definition touches_key (c : kcall) : bool :=
  match c with
  | RSA_set0_key _ _ _ _ | RSA_set0_factors _ _ _
  | RSA_set0_crt_params _ _ _ _ | SetFinalizer _ | Lib (RSA_free _) => true
  | _ => false
  end.

(** In the events [tr], the pointer [p] stands for the number [b]: nil
    for a nil number, and otherwise a non-nil answer of [BN_bin2bn] on
    the bytes of the number. *)
Definition stands_for (tr : list kevent) (b : bigInt) (p : ptr) : Prop :=
  match b with
  | None => p = nil
  | Some x =>
      p <> nil
      /\ In (existT kresp (Lib (BN_bin2bn (Bytes x) (C_size_t (len (Bytes x)))))
               p) tr
  end.

(** The run with events [tr] ended on a [BN_bin2bn] that answered nil. *)
Definition ends_on_failed_bin2bn (tr : list kevent) : Prop :=
  exists pre raw n,
    tr = pre ++ [existT kresp (Lib (BN_bin2bn raw n)) nil].

(** What one [bigToBn] leaves behind: the slot holds nil or a fresh
    number standing for [b]; [false] means the allocation failed, as
    the last thing that happened; the old number, when there was one,
    was freed first and only it. *)
Definition converted (old : ptr) (b : bigInt) (p : ptr) (ok : bool)
    (tr : list kevent) : Prop :=
  (if ok then stands_for tr b p
   else p = nil /\ b <> None /\ ends_on_failed_bin2bn tr)
  /\ (forall x, In (BN_free x) (map (@projT1 kcall kresp) tr) ->
                x = old /\ old <> nil)
  /\ (old <> nil ->
      exists rest, map (@projT1 kcall kresp) tr = BN_free old :: rest)
  /\ Forall (fun c => touches_key c = false) (map (@projT1 kcall kresp) tr).

(** What a key constructor has done when it returns a key: the key is
    the non-nil answer of [RSA_new]; the pointers [ps] stand for the
    numbers [bs], in order; the last calls, [last], hand them to the
    key and register the finalizer; nothing before touched the key. *)
Definition built (tr : list kevent) (key : ptr) (bs : list bigInt)
    (ps : list ptr) (last : list kcall) : Prop :=
  key <> nil
  /\ In (existT kresp (Lib RSA_new) key) tr
  /\ Forall2 (stands_for tr) bs ps
  /\ exists pre,
       map (@projT1 kcall kresp) tr = pre ++ last
       /\ Forall (fun c => touches_key c = false) pre.

(** A library for evaluation: [RefLib], and every setter succeeds. *)
Definition lib (c : kcall) (w : RefLib.world) : kresp c * RefLib.world :=
  match c return kresp c * RefLib.world with
  | Lib c' => RefLib.lib c' w
  | BN_free _ | SetFinalizer _ => (tt, w)
  | _ => (1, w)
  end.

(** The same library out of memory for big numbers once [limit]
    addresses are taken. *)
Definition lib_short (limit : N) (c : kcall) (w : RefLib.world)
    : kresp c * RefLib.world :=
  match c return kresp c * RefLib.world with
  | Lib (BN_bin2bn raw n) =>
      if (limit <=? RefLib.next w)%N then (nil, w)
      else RefLib.lib (BN_bin2bn raw n) w
  | c' => lib c' w
  end.

End Keys.

(* ------------------------------------------------------------------ *)
(** ** build.release, with the answers of the tools                    *)
(* ------------------------------------------------------------------ *)

Module ReleaseLog.
Import Release.

Section ExecLog.
Context {W : Type} (tools : cmd -> W -> (Z * string) * W).

(** [exec], keeping next to each command its status and output. *)
Fixpoint exec_log (p : sh) (w : W) : Z * list (cmd * (Z * string)) :=
  match p with
  | Exit st => (st, [])
  | Run c k =>
      let '(a, w1) := tools c w in
      let '(st, tr) := exec_log (k a) w1 in
      (st, (c, a) :: tr)
  end.
End ExecLog.

(** The commands that make a release public. *)
Definition publishes (c : cmd) : bool :=
  match c with
  | gsutil_cp _ _ | append_RELEASES _ => true
  | _ => false
  end.

Definition is_append (c : cmd) : bool :=
  match c with append_RELEASES _ => true | _ => false end.

Definition is_rm_rf (c : cmd) : bool :=
  match c with rm_rf _ => true | _ => false end.

(** [c] ran in [log] with status [st]. *)
Definition ran (log : list (cmd * (Z * string))) (c : cmd) (st : Z) : Prop :=
  exists out, In (c, (st, out)) log.

(** Every pattern the script looked for in RELEASES is ["^" ++ v ++ " "]
    and was not found, and every line it appended starts with
    [v ++ " "]. *)
Definition guarded_by (v : string) (log : list (cmd * (Z * string))) : Prop :=
  Forall (fun e =>
            match fst e with
            | grep_RELEASES pat =>
                pat = ("^" ++ v ++ " ")%string /\ fst (snd e) <> 0
            | append_RELEASES line =>
                String.prefix (v ++ " ") line = true
            | _ => True
            end) log.

(** The commands of the first part of the script, up to the look into
    RELEASES and the messages that follow it. *)
Definition early (c : cmd) : bool :=
  match c with
  | rev_parse_12 _ | tag_of _ | show_VERSION _ | grep_RELEASES _
  | echo_stderr _ | git_log_n1 _ => true
  | _ => false
  end.

Definition is_tar_extract (c : cmd) : bool :=
  match c with tar_extract_go _ => true | _ => false end.

End ReleaseLog.

(* ================================================================== *)
(** * Facts about programs and runs                                    *)
(* ================================================================== *)

Section RunFacts.
Context {W : Type} (lib : forall c : call, W -> resp c * W).

Lemma run_bind {A B} (p : prog A) (f : A -> prog B) (w : W) :
  run lib (bind p f) w =
  match run lib p w with
  | (Returned a, w1, tr) =>
      let '(o, w2, tr2) := run lib (f a) w1 in (o, w2, tr ++ tr2)
  | (Panicked m, w1, tr) => (Panicked m, w1, tr)
  end.
Proof.
  revert w. induction p as [a | m | c k IH]; intro w; simpl.
  - destruct (run lib (f a) w) as [[o w2] tr2]. reflexivity.
  - reflexivity.
  - destruct (lib c w) as [x w1]. rewrite IH.
    destruct (run lib (k x) w1) as [[[a | m] w2] tr]; [| reflexivity].
    destruct (run lib (f a) w2) as [[o w3] tr2]. reflexivity.
Qed.

Lemma all_calls_run {R} (P : call -> Prop) (p : prog R) (w : W) :
  all_calls P p -> Forall P (calls lib p w).
Proof.
  intro H. revert w. induction H as [r | m | c k Hc _ IH]; intro w.
  - constructor.
  - constructor.
  - unfold calls, trace in *. simpl.
    destruct (lib c w) as [x w1]. specialize (IH x w1).
    destruct (run lib (k x) w1) as [[o w2] tr]. simpl in *.
    constructor; assumption.
Qed.
End RunFacts.

Lemma all_calls_bind {A B} (P : call -> Prop) (p : prog A) (f : A -> prog B) :
  all_calls P p -> (forall a, all_calls P (f a)) -> all_calls P (bind p f).
Proof.
  intros Hp Hf. induction Hp; simpl; auto using all_calls_Panic.
  constructor; auto.
Qed.

Lemma all_calls_C (P : call -> Prop) (c : call) : P c -> all_calls P (C c).
Proof. intro H. constructor; [exact H | intro; constructor]. Qed.

Lemma all_calls_defer {R} (P : call -> Prop) (d : prog unit) (p : prog R) :
  all_calls P d -> all_calls P p -> all_calls P (defer d p).
Proof.
  intros Hd Hp. induction Hp; simpl.
  - apply all_calls_bind; [exact Hd | intro; constructor].
  - apply all_calls_bind; [exact Hd | intro; constructor].
  - constructor; auto.
Qed.

Lemma all_calls_defer_named {R} (P : call -> Prop) (d : R -> prog R)
    (p : prog R) :
  (forall r, all_calls P (d r)) -> all_calls P p ->
  all_calls P (defer_named d p).
Proof.
  intros Hd Hp. induction Hp; simpl; auto using all_calls_Panic.
  constructor; auto.
Qed.

Lemma all_calls_slice_to (P : call -> Prop) (s : bytes) (n : N) :
  all_calls P (slice_to s n).
Proof. unfold slice_to. destruct (_ <=? _)%N; constructor. Qed.

(** Splits a goal [all_calls P p] along the shape of [p]. *)
Ltac calls_step :=
  match goal with
  | |- all_calls _ (bind _ _) => apply all_calls_bind; [| intro]
  | |- all_calls _ (defer _ _) => apply all_calls_defer
  | |- all_calls _ (defer_named _ _) => apply all_calls_defer_named; [intro |]
  | |- all_calls _ (C _) => unfold C; constructor; [| intro; constructor]
  | |- all_calls _ (Call _ _) => constructor; [| intro]
  | |- all_calls _ (Ret _) => constructor
  | |- all_calls _ (Panic _) => constructor
  | |- all_calls _ (slice_to _ _) => apply all_calls_slice_to
  | |- all_calls _ (if ?b then _ else _) => destruct b
  | |- all_calls _ (match ?x with Some _ => _ | None => _ end) => destruct x
  | |- all_calls _ (let '(_, _) := ?x in _) => destruct x
  | |- all_calls _ (match ?x with (_, _) => _ end) => destruct x
  end.

Lemma run_defer {W R} (lib : forall c : call, W -> resp c * W)
    (d : prog unit) (p : prog R) (w : W) :
  run lib (defer d p) w =
  let '(o, w1, tr) := run lib p w in
  let '(od, w2, trd) := run lib d w1 in
  (match od with Returned _ => o | Panicked m => Panicked m end,
   w2, tr ++ trd).
Proof.
  revert w. induction p as [r | m | c k IH]; intro w; simpl.
  - rewrite run_bind. destruct (run lib d w) as [[[[] | m] w1] tr]; simpl;
      [rewrite app_nil_r |]; reflexivity.
  - rewrite run_bind. destruct (run lib d w) as [[[[] | m'] w1] tr]; simpl;
      [rewrite app_nil_r |]; reflexivity.
  - destruct (lib c w) as [x w1]. rewrite IH.
    destruct (run lib (k x) w1) as [[o w2] tr].
    destruct (run lib d w2) as [[od w3] trd]. reflexivity.
Qed.

Lemma length_fill (buf written : bytes) :
  List.length (fill buf written) = List.length buf.
Proof.
  unfold fill. rewrite length_firstn, length_app, length_skipn. lia.
Qed.

Lemma slice_to_Ret (s : bytes) (n : N) (x : bytes) :
  slice_to s n = Ret x ->
  List.length x = N.to_nat n /\ (N.to_nat n <= List.length s)%nat.
Proof.
  unfold slice_to. destruct (N.leb_spec n (N.of_nat (List.length s))) as [H | H];
    [| discriminate].
  intro E. injection E as <-. rewrite length_firstn. lia.
Qed.

Lemma run_slice_to {W} (lib : forall c : call, W -> resp c * W)
    (s : bytes) (n : N) (w : W) :
  run lib (slice_to s n) w
  = (if (n <=? N.of_nat (List.length s))%N
     then Returned (firstn (N.to_nat n) s)
     else Panicked "slice bounds out of range", w, []).
Proof. unfold slice_to. destruct (_ <=? _)%N; reflexivity. Qed.

(* ------------------------------------------------------------------ *)
(** ** Byte strings and numbers                                        *)
(* ------------------------------------------------------------------ *)

Lemma byte_of_N_to_N (n : N) : (n < 256)%N -> Byte.to_N (byte_of_N n) = n.
Proof.
  intro H. unfold byte_of_N.
  destruct (Byte.of_N n) as [b |] eqn:E.
  - apply Byte.to_of_N. exact E.
  - apply Byte.of_N_None_iff in E. lia.
Qed.

Lemma be_value_rev (l : bytes) : be_value (rev l) = le_value l.
Proof.
  induction l as [| b l IH]; [reflexivity |].
  simpl rev. unfold be_value in *. rewrite fold_left_app.
  cbn [fold_left le_value fold_right]. rewrite IH. unfold le_value. lia.
Qed.

Lemma le_value_le_bytes (fuel : nat) (n : N) :
  (n < 2 ^ N.of_nat fuel)%N -> le_value (le_bytes fuel n) = n.
Proof.
  revert n. induction fuel as [| f IH]; intros n H.
  - simpl in *. lia.
  - cbn [le_bytes]. destruct (N.eqb_spec n 0) as [-> | Hn]; [reflexivity |].
    cbn [le_value fold_right]. fold (le_value (le_bytes f (n / 256))).
    rewrite IH.
    + rewrite byte_of_N_to_N by (apply N.mod_lt; lia).
      pose proof (N.div_mod n 256). lia.
    + rewrite Nat2N.inj_succ, N.pow_succ_r' in H.
      apply N.Div0.div_lt_upper_bound.
      assert (0 < 2 ^ N.of_nat f)%N by (apply N.neq_0_lt_0, N.pow_nonzero; lia).
      lia.
Qed.

Lemma SetBytes_Bytes (x : Z) : 0 <= x -> SetBytes (Bytes x) = x.
Proof.
  intro H. unfold SetBytes, Bytes. cbv zeta.
  rewrite be_value_rev, le_value_le_bytes.
  - rewrite N2Z.inj_abs_N. apply Z.abs_eq. exact H.
  - rewrite N2Nat.id. apply N.size_gt.
Qed.

Lemma be_value_trim (b : bytes) : be_value (RefLib.trim b) = be_value b.
Proof.
  unfold be_value.
  induction b as [| c l IH]; [reflexivity |].
  destruct c; try reflexivity. simpl. exact IH.
Qed.

Lemma slice_fill_make (nb : N) (bs : bytes) :
  (List.length bs <= N.to_nat nb)%nat ->
  slice_to (fill (make nb) bs) (N.of_nat (List.length bs)) = Ret bs.
Proof.
  intro H. unfold slice_to, fill, make.
  rewrite repeat_length.
  assert (L : List.length (firstn (N.to_nat nb)
                (bs ++ skipn (List.length bs) (repeat x00 (N.to_nat nb))))
              = N.to_nat nb).
  { rewrite length_firstn, length_app, length_skipn, repeat_length. lia. }
  rewrite L.
  destruct (N.leb_spec (N.of_nat (List.length bs)) (N.of_nat (N.to_nat nb)))
    as [_ | Hlt]; [| lia].
  rewrite Nat2N.id, firstn_firstn, Nat.min_l by exact H.
  rewrite firstn_app, firstn_all, Nat.sub_diag. simpl.
  rewrite app_nil_r. reflexivity.
Qed.

(** One conversion back to a [*big.Int], against a library that keeps
    [BN_bn2bin] within the announced size. *)
Lemma run_bnToBig {W} (lib : forall c : call, W -> resp c * W)
    (bn : ptr) (w : W) :
  let a := lib (BN_num_bytes bn) w in
  let b := lib (BN_bn2bin bn (fst a)) (snd a) in
  (List.length (fst b) <= N.to_nat (fst a))%nat ->
  run lib (bnToBig bn) w =
    (Returned (Some (SetBytes (fst b))), snd b,
     [existT resp (BN_num_bytes bn) (fst a);
      existT resp (BN_bn2bin bn (fst a)) (fst b)]).
Proof.
  cbv zeta. intro H. unfold bnToBig. simpl.
  destruct (lib (BN_num_bytes bn) w) as [nb w1]. simpl in *.
  destruct (lib (BN_bn2bin bn nb) w1) as [bs w2]. simpl in *.
  rewrite slice_fill_make by exact H. reflexivity.
Qed.

(* ================================================================== *)
(** * C2: the round trip through the foreign big number                *)
(* ================================================================== *)

(** C2.  For every non-negative big integer [x], converting [x] to a
    foreign big number with [bigToBN] and back with [bnToBig] returns
    [x], against the library whose big-number objects are minimal
    big-endian byte strings, from any state of that library. *)
Theorem bnToBig_bigToBN (x : Z) (w : RefLib.world) :
  0 <= x ->
  result RefLib.lib (bn <- bigToBN x ;; bnToBig bn) w = Returned (Some x).
Proof.
  intro Hx. unfold result. rewrite run_bind.
  unfold bigToBN. cbn [C run RefLib.lib RefLib.new_bn].
  set (w1 := {| RefLib.next := N.succ (RefLib.next w);
                RefLib.bignums := _; RefLib.rsa_keys := _;
                RefLib.rsa_size := _ |}).
  assert (Hb : RefLib.bn_bytes (RefLib.next w) w1 = RefLib.trim (Bytes x)).
  { unfold RefLib.bn_bytes, w1. simpl. rewrite N.eqb_refl. reflexivity. }
  rewrite run_bnToBig.
  - cbn [RefLib.lib fst snd]. rewrite Hb. simpl.
    unfold SetBytes. rewrite be_value_trim.
    fold (SetBytes (Bytes x)). rewrite SetBytes_Bytes by exact Hx.
    reflexivity.
  - cbn [RefLib.lib fst snd]. rewrite Nat2N.id. apply Nat.le_refl.
Qed.

Lemma bnToBig_bigToBN_witness :
  0 <= 65537 /\
  result RefLib.lib (bn <- bigToBN 65537 ;; bnToBig bn) RefLib.init
  = Returned (Some 65537).
Proof.
  split; [lia | apply (bnToBig_bigToBN 65537 RefLib.init); lia].
Defined.

(* ================================================================== *)
(** * C1: unsupported hash functions                                   *)
(* ================================================================== *)

Section UnsupportedHash.
Context {X : externals} {W : Type} (lib : forall c : call, W -> resp c * W).

(** C1.  When [cryptoHashToMD h] is nil, [SignRSAPSS], [VerifyRSAPSS],
    [SignRSAPKCS1v15] and [VerifyRSAPKCS1v15] return an "unsupported
    hash function" error (with a nil signature from the two signing
    functions), whatever the other arguments and whatever the library
    answers, and none of the calls they make is a foreign signing or
    verification routine. *)
Theorem unsupported_hash_rejected (h : N) (w : W)
    (priv : PrivateKeyRSA) (pub : PublicKeyRSA)
    (msg sig : bytes) (saltLen : Z) (msgIsHashed : bool) :
  cryptoHashToMD h = nil ->
  (result lib (SignRSAPSS priv h msg saltLen) w
     = Returned (None, Some (errors_New unsupported))
   /\ no_signing (calls lib (SignRSAPSS priv h msg saltLen) w))
  /\ (result lib (VerifyRSAPSS pub h msg sig saltLen) w
        = Returned (Some (errors_New unsupported))
      /\ no_signing (calls lib (VerifyRSAPSS pub h msg sig saltLen) w))
  /\ ((exists m, result lib (SignRSAPKCS1v15 priv h msg msgIsHashed) w
                   = Returned (None, Some (errors_New m))
                 /\ String.prefix unsupported m = true)
      /\ no_signing (calls lib (SignRSAPKCS1v15 priv h msg msgIsHashed) w))
  /\ (result lib (VerifyRSAPKCS1v15 pub h msg sig msgIsHashed) w
        = Returned (Some (errors_New unsupported))
      /\ no_signing (calls lib (VerifyRSAPKCS1v15 pub h msg sig msgIsHashed) w)).
Proof.
  intro Hmd.
  unfold SignRSAPSS, VerifyRSAPSS, SignRSAPKCS1v15, VerifyRSAPKCS1v15,
    result, calls, trace, no_signing.
  rewrite Hmd. simpl.
  destruct (lib (RSA_size (priv_key priv)) w) as [n1 w1].
  destruct (lib (RSA_size (pub_key pub)) w) as [n2 w2]. simpl.
  repeat split; try constructor; try reflexivity; try constructor.
  eexists. split; [reflexivity |]. reflexivity.
Qed.
End UnsupportedHash.

Lemma unsupported_hash_rejected_witness :
  let priv := {| priv_key := 9%N |} in
  let pub := {| pub_key := 9%N |} in
  let run_of {R} (p : prog R) := result RefLib.lib p RefLib.init in
  let calls_of {R} (p : prog R) := calls RefLib.lib p RefLib.init in
  cryptoHashToMD (externals := sample) 9 = nil /\
  (run_of (SignRSAPSS (X := sample) priv 9 [x01; x02] 0)
     = Returned (None, Some (errors_New unsupported))
   /\ no_signing (calls_of (SignRSAPSS (X := sample) priv 9 [x01; x02] 0)))
  /\ (run_of (VerifyRSAPSS (X := sample) pub 9 [x01; x02] [x03] 0)
        = Returned (Some (errors_New unsupported))
      /\ no_signing
           (calls_of (VerifyRSAPSS (X := sample) pub 9 [x01; x02] [x03] 0)))
  /\ ((exists m,
         run_of (SignRSAPKCS1v15 (X := sample) priv 9 [x01; x02] true)
           = Returned (None, Some (errors_New m))
         /\ String.prefix unsupported m = true)
      /\ no_signing
           (calls_of (SignRSAPKCS1v15 (X := sample) priv 9 [x01; x02] true)))
  /\ (run_of (VerifyRSAPKCS1v15 (X := sample) pub 9 [x01; x02] [x03] true)
        = Returned (Some (errors_New unsupported))
      /\ no_signing
           (calls_of
              (VerifyRSAPKCS1v15 (X := sample) pub 9 [x01; x02] [x03] true))).
Proof.
  cbv zeta. split; [reflexivity |].
  apply (unsupported_hash_rejected (X := sample) RefLib.lib 9 RefLib.init
           {| priv_key := 9%N |} {| pub_key := 9%N |} [x01; x02] [x03] 0 true).
  reflexivity.
Defined.

(* ================================================================== *)
(** * C3: what setupRSA does on its error paths                        *)
(* ================================================================== *)

(** C3, at a failing input.  The library hands out EVP_PKEY object 1 and
    then fails [EVP_PKEY_set1_RSA]: [setupRSA] returns nil handles and
    the error, and its calls are the allocation and the failed call
    only.  The [return nil, nil, err] has cleared the named results
    before the deferred closure looks at them, so object 1 is not
    freed. *)
Theorem setupRSA_error_leaks_pkey :
  let p := setupRSA (X := sample) 9%N 1 None [] 0 0%N encryptInit in
  result RefLib.failing_set1 p RefLib.init
    = Returned (nil, nil, Some (NewOpenSSLError "EVP_PKEY_set1_RSA failed"))
  /\ answered (trace RefLib.failing_set1 p RefLib.init) EVP_PKEY_new 1%N
  /\ calls RefLib.failing_set1 p RefLib.init
     = [EVP_PKEY_new; EVP_PKEY_set1_RSA 1%N 9%N]
  /\ ~ In (EVP_PKEY_free 1%N) (calls RefLib.failing_set1 p RefLib.init).
Proof.
  cbv zeta. split; [reflexivity |]. split; [left; reflexivity |].
  split; [reflexivity |].
  intros [H | [H | []]]; discriminate H.
Qed.

Lemma returns_only_any {R} (p : prog R) : returns_only (fun _ => True) p.
Proof. induction p; constructor; auto. Qed.

Lemma returns_only_bind {A B} (Q : B -> Prop) (p : prog A) (f : A -> prog B) :
  (forall a, returns_only Q (f a)) -> returns_only Q (bind p f).
Proof. intro Hf. induction p; simpl; auto; constructor; auto. Qed.

Lemma returns_only_run {W R} (lib : forall c : call, W -> resp c * W)
    (Q : R -> Prop) (p : prog R) (w : W) (r : R) :
  returns_only Q p -> result lib p w = Returned r -> Q r.
Proof.
  intro H. revert w. unfold result.
  induction H as [r' Hq | m | c k _ IH]; intro w; simpl.
  - intro E. injection E as <-. exact Hq.
  - discriminate.
  - destruct (lib c w) as [x w1]. specialize (IH x w1).
    destruct (run lib (k x) w1) as [[o w2] tr]. exact IH.
Qed.

Lemma run_defer_named_dead {W R} (lib : forall c : call, W -> resp c * W)
    (Q : R -> Prop) (d : R -> prog R) (p : prog R) (w : W) :
  returns_only Q p -> (forall r, Q r -> d r = Ret r) ->
  run lib (defer_named d p) w = run lib p w.
Proof.
  intros H Hd. revert w.
  induction H as [r Hq | m | c k _ IH]; intro w; simpl.
  - rewrite (Hd r Hq). reflexivity.
  - reflexivity.
  - destruct (lib c w) as [x w1]. rewrite IH. reflexivity.
Qed.

Section SetupFacts.
Context {X : externals} {W : Type} (lib : forall c : call, W -> resp c * W).

Lemma setupRSA_body_cleared key padding h label saltLen ch init :
  returns_only cleared (setupRSA_body key padding h label saltLen ch init).
Proof.
  assert (F : forall e, returns_only cleared (fail3 e))
    by (intro e; constructor; simpl; auto).
  unfold setupRSA_body.
  repeat first
    [ apply returns_only_bind; intro
    | match goal with
      | |- returns_only _ (if ?b then _ else _) => destruct b
      | |- returns_only _ (match ?x with Some _ => _ | None => _ end) =>
          destruct x
      end
    | apply F ].
  constructor. simpl. intro E. congruence.
Qed.

Lemma setupRSA_deferred_idle res :
  cleared res -> setupRSA_deferred res = Ret res.
Proof.
  destruct res as [[pkey ctx] [e |]]; simpl; [| reflexivity].
  intro H. destruct H as [-> ->]; [discriminate |]. reflexivity.
Qed.

(** The deferred closure of [setupRSA] never does anything: a run of
    [setupRSA] is a run of its body. *)
Lemma run_setupRSA key padding h label saltLen ch init (w : W) :
  run lib (setupRSA key padding h label saltLen ch init) w
  = run lib (setupRSA_body key padding h label saltLen ch init) w.
Proof.
  unfold setupRSA.
  apply run_defer_named_dead with (Q := cleared).
  - apply setupRSA_body_cleared.
  - apply setupRSA_deferred_idle.
Qed.

(** The part of C3 that holds: an error comes with nil handles. *)
Lemma setupRSA_error_nil_handles key padding h label saltLen ch init
    (w : W) pkey ctx e :
  result lib (setupRSA key padding h label saltLen ch init) w
    = Returned (pkey, ctx, Some e) ->
  pkey = nil /\ ctx = nil.
Proof.
  unfold result. rewrite run_setupRSA. intro H.
  apply (returns_only_run lib cleared _ w _
           (setupRSA_body_cleared key padding h label saltLen ch init)) in H.
  apply H. discriminate.
Qed.

(** The part of C3 that fails, in general: no run of [setupRSA] frees
    an EVP_PKEY or an EVP_PKEY_CTX. *)
Lemma setupRSA_never_frees key padding h label saltLen ch init (w : W) :
  (forall ctx, all_calls (fun c => frees_pkey_or_ctx c = false) (init ctx)) ->
  Forall (fun c => frees_pkey_or_ctx c = false)
    (calls lib (setupRSA key padding h label saltLen ch init) w).
Proof.
  intro Hinit. unfold calls, trace. rewrite run_setupRSA.
  apply (all_calls_run lib).
  unfold setupRSA_body, setupRSA_oaep, C_malloc, setupRSA_pss, fail3.
  repeat first [ apply Hinit | calls_step ]; reflexivity.
Qed.
End SetupFacts.

(* ================================================================== *)
(** * C4: which bytes reach the library                                *)
(* ================================================================== *)

Lemma firstn_repeat {A} (x : A) (k n : nat) :
  firstn k (repeat x n) = repeat x (Nat.min k n).
Proof.
  revert n. induction k as [| k IH]; intros [| n]; simpl; try reflexivity.
  rewrite IH. reflexivity.
Qed.

Lemma skipn_repeat {A} (x : A) (k n : nat) :
  skipn k (repeat x n) = repeat x (n - k).
Proof.
  revert n. induction k as [| k IH]; intros [| n]; simpl; try reflexivity.
  apply IH.
Qed.

Lemma pad_sig_spec (size : N) (sig : bytes) :
  pad_sig size sig =
  if len sig <? Z.of_N size
  then repeat x00 (N.to_nat size - List.length sig) ++ sig
  else sig.
Proof.
  unfold pad_sig, len. destruct (Z.ltb_spec (Z.of_nat (List.length sig))
                                   (Z.of_N size)) as [H | H]; [| reflexivity].
  assert (L : (List.length sig < N.to_nat size)%nat) by lia.
  unfold copy_at, fill, make. rewrite repeat_length.
  rewrite firstn_repeat, Nat.min_l by lia.
  rewrite skipn_repeat, repeat_length.
  replace (N.to_nat size - (N.to_nat size - List.length sig))%nat
    with (List.length sig) by lia.
  rewrite firstn_app, firstn_all, Nat.sub_diag. simpl.
  rewrite app_nil_r. reflexivity.
Qed.

Lemma C_uint_small (x : Z) : 0 <= x < 2^32 -> C_uint x = x.
Proof. intro H. unfold C_uint. apply Z.mod_small. exact H. Qed.

Lemma len_nonneg {A} (l : list A) : 0 <= len l.
Proof. unfold len. apply Nat2Z.is_nonneg. Qed.

(** C4, as stated, fails: [VerifyRSAPKCS1v15] on the one-byte signature
    03 under a four-byte key hands the library 00 00 00 03. *)
Lemma verify_pkcs1v15_rewrites_short_signature :
  let p := VerifyRSAPKCS1v15 (X := sample) {| pub_key := 9%N |} 3
             [x01; x02] [x03] true in
  calls RefLib.lib p RefLib.init
    = [RSA_size 9%N; EVP_MD_type 103%N;
       RSA_verify 1 [x01; x02] 2 [x00; x00; x00; x03] 4 9%N]
  /\ ~ passes_unmodified [x01; x02] (Some [x03])
         (calls RefLib.lib p RefLib.init).
Proof.
  cbv zeta. split; [reflexivity |].
  intro H. change (calls RefLib.lib _ RefLib.init)
    with [RSA_size 9%N; EVP_MD_type 103%N;
          RSA_verify 1 [x01; x02] 2 [x00; x00; x00; x03] 4 9%N] in H.
  unfold passes_unmodified in H.
  rewrite Forall_forall in H.
  destruct (H (RSA_verify 1 [x01; x02] 2 [x00; x00; x00; x03] 4 9%N))
    as [_ Hs]; [simpl; auto |].
  destruct (Hs _ _ eq_refl) as [Hs' _]. discriminate Hs'.
Qed.

(** The operations built on [cryptRSA]: after a [setupRSA] that returned
    its handles, the first call hands the input to the library on the
    context of [setupRSA], and every later call works on that context. *)
Section CryptShape.
Context {X : externals} {W : Type} (lib : forall c : call, W -> resp c * W).

Lemma cryptRSA_after_setup key padding h label saltLen ch init crypt
    (cc : ptr -> option N -> N -> bytes -> Z -> call)
    input (w w1 : W) pkey ctx tr :
  (crypt = decrypt /\ cc = EVP_PKEY_decrypt)
  \/ (crypt = encrypt /\ cc = EVP_PKEY_encrypt) ->
  run lib (setupRSA key padding h label saltLen ch init) w
    = (Returned (pkey, ctx, None), w1, tr) ->
  exists rest,
    calls lib (cryptRSA key padding h label saltLen ch init crypt input) w
    = map called tr ++ cc ctx None 0%N input (C_uint (len input)) :: rest
    /\ Forall (fun c => forall ctx', crypt_ctx c = Some ctx' -> ctx' = ctx)
         rest.
Proof.
  intros Hc Hsetup.
  unfold calls, trace, cryptRSA. rewrite run_bind, Hsetup. cbv iota beta.
  rewrite !run_defer.
  destruct Hc as [[-> ->] | [-> ->]]; unfold decrypt, encrypt, C;
    cbn [bind run];
    match goal with
    | |- context [lib ?c w1] => destruct (lib c w1) as [[[r junk] n] w2]
    end;
    cbv iota beta;
    match goal with
    | |- context [run lib ?p ?w'] =>
        pose proof (all_calls_run lib
                      (fun c => forall ctx', crypt_ctx c = Some ctx'
                                             -> ctx' = ctx) p w') as Hall;
        destruct (run lib p w') as [[o w3] tl] eqn:Etl
    end;
    unfold calls, trace in Hall; rewrite Etl in Hall; cbn [snd] in Hall;
    cbv iota beta;
    match goal with
    | |- context [lib (EVP_PKEY_CTX_free ctx) ?w'] =>
        destruct (lib (EVP_PKEY_CTX_free ctx) w') as [[] w4]
    end;
    cbv iota beta;
    match goal with
    | |- context [lib (EVP_PKEY_free pkey) ?w'] =>
        destruct (lib (EVP_PKEY_free pkey) w') as [[] w5]
    end;
    cbn [fst snd];
    exists (map called tl ++ [EVP_PKEY_CTX_free ctx; EVP_PKEY_free pkey]);
    (split;
     [ rewrite !map_app; cbn [map called projT1 app];
       rewrite <- !app_assoc; reflexivity
     | apply Forall_app; split;
       [ apply Hall; repeat calls_step; intros ? E; simpl in E; congruence
       | repeat constructor; intros ? E; discriminate E ] ]).
Qed.

End CryptShape.

Section Unmodified.
Context {X : externals} {W : Type} (lib : forall c : call, W -> resp c * W).

(** Settles [all_calls P p] for the functions of rsa.go, where [P]
    looks at the byte arguments of a call. *)
Ltac unmodified :=
  unfold cryptRSA, setupRSA, setupRSA_body, setupRSA_deferred,
    setupRSA_oaep, C_malloc, setupRSA_pss, fail3, PanicIfStrictFIPS,
    decryptInit, encryptInit, decrypt, encrypt;
  cbv beta;
  repeat calls_step;
  try (split; intros ? ? E; simpl in E; try discriminate E;
       injection E as <- <-; split; reflexivity).

Lemma cryptRSA_unmodified key padding h label saltLen ch input
    (init : ptr -> prog Z)
    (crypt : ptr -> option N -> N -> bytes -> Z -> prog (Z * bytes * N))
    (w : W) :
  (init = decryptInit /\ crypt = decrypt)
  \/ (init = encryptInit /\ crypt = encrypt) ->
  passes_unmodified input None
    (calls lib (cryptRSA key padding h label saltLen ch init crypt input) w).
Proof.
  intro H. apply all_calls_run.
  destruct H as [[-> ->] | [-> ->]]; unmodified.
Qed.

Lemma VerifyRSAPKCS1v15_passes pub h msg sig msgIsHashed (w : W) :
  passes_unmodified msg
    (Some (pad_sig (fst (lib (RSA_size (pub_key pub)) w)) sig))
    (calls lib (VerifyRSAPKCS1v15 pub h msg sig msgIsHashed) w).
Proof.
  unfold VerifyRSAPKCS1v15, calls, trace. simpl.
  destruct (lib (RSA_size (pub_key pub)) w) as [size w1]. simpl.
  match goal with
  | |- context [run lib ?p w1] =>
      pose proof (all_calls_run lib
        (fun c => (forall m n, msg_arg c = Some (m, n) ->
                               m = msg /\ n = C_uint (len msg))
                  /\ (forall s n, sig_arg c = Some (s, n) ->
                                  Some s = Some (pad_sig size sig)
                                  /\ n = C_uint (len s)))
        p w1) as A
  end.
  unfold calls, trace in A.
  destruct (run lib _ w1) as [[o w2] tr]. simpl in *.
  constructor.
  - split; intros ? ? E; simpl in E; congruence.
  - apply A. unmodified.
Qed.

(** With a supported hash the signing and verifying functions do make
    their call, with the caller's bytes and their lengths. *)
Lemma SignRSAPSS_reaches priv h msg saltLen (w : W) :
  cryptoHashToMD h <> nil ->
  reaches msg None (calls lib (SignRSAPSS priv h msg saltLen) w).
Proof.
  intro Hmd. apply N.eqb_neq in Hmd. unfold nil in Hmd.
  unfold reaches, calls, trace, SignRSAPSS, is_nil. rewrite Hmd. simpl.
  destruct (lib (RSA_size (priv_key priv)) w) as [size w1]. simpl.
  destruct (lib (RSA_sign_pss_mgf1 _ _ _ _ _ _) w1) as [[[r wr] ol] w2].
  destruct (run lib _ w2) as [[o w4] tr]. simpl.
  apply Exists_cons_tl, Exists_cons_hd. split; reflexivity.
Qed.

Lemma VerifyRSAPSS_reaches pub h msg sig saltLen (w : W) :
  cryptoHashToMD h <> nil ->
  reaches msg (Some sig) (calls lib (VerifyRSAPSS pub h msg sig saltLen) w).
Proof.
  intro Hmd. apply N.eqb_neq in Hmd. unfold nil in Hmd.
  unfold reaches, calls, trace, VerifyRSAPSS, is_nil. rewrite Hmd. simpl.
  destruct (lib (RSA_verify_pss_mgf1 _ _ _ _ _ _ _) w) as [r w1].
  destruct (run lib _ w1) as [[o w4] tr]. simpl.
  apply Exists_cons_hd. split; reflexivity.
Qed.

Lemma SignRSAPKCS1v15_reaches priv h msg msgIsHashed (w : W) :
  cryptoHashToMD h <> nil -> (msgIsHashed = true -> strictFIPS = false) ->
  reaches msg None (calls lib (SignRSAPKCS1v15 priv h msg msgIsHashed) w).
Proof.
  intros Hmd Hs. apply N.eqb_neq in Hmd. unfold nil in Hmd.
  unfold reaches, calls, trace, SignRSAPKCS1v15, PanicIfStrictFIPS, is_nil.
  simpl.
  destruct (lib (RSA_size (priv_key priv)) w) as [size w1]. simpl.
  rewrite Hmd.
  destruct msgIsHashed; [rewrite (Hs eq_refl) |]; simpl.
  - destruct (lib (EVP_MD_type _) w1) as [nid w2]. simpl.
    destruct (lib (RSA_sign _ _ _ _) w2) as [[[r wr] ol] w3].
    destruct (run lib _ w3) as [[o w4] tr]. simpl.
    apply Exists_cons_tl, Exists_cons_tl, Exists_cons_hd. split; reflexivity.
  - destruct (lib (EVP_RSA_sign _ _ _ _) w1) as [[[r wr] ol] w3].
    destruct (run lib _ w3) as [[o w4] tr]. simpl.
    apply Exists_cons_tl, Exists_cons_hd. split; reflexivity.
Qed.

Lemma VerifyRSAPKCS1v15_reaches pub h msg sig msgIsHashed (w : W) :
  cryptoHashToMD h <> nil -> (msgIsHashed = true -> strictFIPS = false) ->
  reaches msg (Some (pad_sig (fst (lib (RSA_size (pub_key pub)) w)) sig))
    (calls lib (VerifyRSAPKCS1v15 pub h msg sig msgIsHashed) w).
Proof.
  intros Hmd Hs. apply N.eqb_neq in Hmd. unfold nil in Hmd.
  unfold reaches, calls, trace, VerifyRSAPKCS1v15, PanicIfStrictFIPS, is_nil.
  simpl.
  destruct (lib (RSA_size (pub_key pub)) w) as [size w1]. simpl.
  rewrite Hmd.
  destruct msgIsHashed; [rewrite (Hs eq_refl) |]; simpl.
  - destruct (lib (EVP_MD_type _) w1) as [nid w2]. simpl.
    destruct (lib (RSA_verify _ _ _ _ _ _) w2) as [r w3].
    destruct (run lib _ w3) as [[o w4] tr]. simpl.
    apply Exists_cons_tl, Exists_cons_tl, Exists_cons_hd. split; reflexivity.
  - destruct (lib (EVP_RSA_verify _ _ _ _ _ _) w1) as [r w3].
    destruct (run lib _ w3) as [[o w4] tr]. simpl.
    apply Exists_cons_tl, Exists_cons_hd. split; reflexivity.
Qed.

Lemma exported_reaches (op : rsa_op) (oh : option hash_Hash)
    (priv : PrivateKeyRSA) (pub : PublicKeyRSA) (msg label : bytes) (w : W)
    pkey ctx :
  result lib (setup_of op oh priv pub label) w = Returned (pkey, ctx, None) ->
  exists rest pre,
    calls lib (exported op oh priv pub msg label) w
    = pre ++ crypt_call op ctx None 0%N msg (C_uint (len msg)) :: rest.
Proof.
  unfold result.
  destruct (run lib (setup_of op oh priv pub label) w) as [[o w1] tr] eqn:E.
  cbn [fst]. intros ->.
  destruct op; unfold setup_of in E;
    cbn [is_decrypt key_of named_flag hash_of label_of] in E;
    unfold exported, DecryptRSAOAEP, EncryptRSAOAEP, DecryptRSAPKCS1,
      EncryptRSAPKCS1, DecryptRSANoPadding, EncryptRSANoPadding, crypt_call;
    cbn [is_decrypt];
    first
      [ destruct (cryptRSA_after_setup lib _ _ _ _ _ _ _ decrypt
                    EVP_PKEY_decrypt msg _ _ _ _ _
                    (or_introl (conj eq_refl eq_refl)) E) as (rest & Hc & _);
        exists rest, (map called tr); exact Hc
      | destruct (cryptRSA_after_setup lib _ _ _ _ _ _ _ encrypt
                    EVP_PKEY_encrypt msg _ _ _ _ _
                    (or_intror (conj eq_refl eq_refl)) E) as (rest & Hc & _);
        exists rest, (map called tr); exact Hc ].
Qed.

(** C4, amended.  In every run of the RSA operations of rsa.go, each
    call that carries a message carries the caller's bytes, and each
    call that carries a signature carries the caller's signature; the
    length announced next to them is the length of the bytes as a
    [C.uint], which is that length when it is below 2^32.  The one
    exception is [VerifyRSAPKCS1v15], which hands over the signature
    left-padded with zero bytes to the key size when it is shorter
    than the key size (and the signature itself otherwise).  The bytes
    do reach the library: the six operations built on [cryptRSA] hand
    them over once [setupRSA] has returned its handles, the signing
    and verifying functions whenever the hash is supported (and, for a
    pre-hashed message to the PKCS1v15 functions, [strictFIPS] is
    off). *)
Theorem bytes_reach_library_unmodified
    (priv : PrivateKeyRSA) (pub : PublicKeyRSA) (oh : option hash_Hash)
    (h : N) (msg sig label : bytes) (saltLen : Z) (msgIsHashed : bool)
    (w : W) :
  let size := fst (lib (RSA_size (pub_key pub)) w) in
  let handed := if len sig <? Z.of_N size
                then repeat x00 (N.to_nat size - List.length sig) ++ sig
                else sig in
  (forall op,
      passes_unmodified msg None
        (calls lib (exported op oh priv pub msg label) w))
  /\ passes_unmodified msg None (calls lib (SignRSAPSS priv h msg saltLen) w)
  /\ passes_unmodified msg (Some sig)
       (calls lib (VerifyRSAPSS pub h msg sig saltLen) w)
  /\ passes_unmodified msg None
       (calls lib (SignRSAPKCS1v15 priv h msg msgIsHashed) w)
  /\ passes_unmodified msg (Some handed)
       (calls lib (VerifyRSAPKCS1v15 pub h msg sig msgIsHashed) w)
  /\ (forall op pkey ctx,
         result lib (setup_of op oh priv pub label) w
           = Returned (pkey, ctx, None) ->
         reaches msg None (calls lib (exported op oh priv pub msg label) w))
  /\ (cryptoHashToMD h <> nil ->
      reaches msg None (calls lib (SignRSAPSS priv h msg saltLen) w)
      /\ reaches msg (Some sig)
           (calls lib (VerifyRSAPSS pub h msg sig saltLen) w)
      /\ ((msgIsHashed = true -> strictFIPS = false) ->
          reaches msg None
            (calls lib (SignRSAPKCS1v15 priv h msg msgIsHashed) w)
          /\ reaches msg (Some handed)
               (calls lib (VerifyRSAPKCS1v15 pub h msg sig msgIsHashed) w)))
  /\ (len msg < 2^32 -> C_uint (len msg) = len msg)
  /\ (len sig < 2^32 -> C_uint (len sig) = len sig).
Proof.
  cbv zeta.
  split.
  { intro op. destruct op;
      unfold exported, DecryptRSAOAEP, EncryptRSAOAEP, DecryptRSAPKCS1,
        EncryptRSAPKCS1, DecryptRSANoPadding, EncryptRSANoPadding;
      apply cryptRSA_unmodified; auto. }
  split; [apply all_calls_run; unfold SignRSAPSS; unmodified |].
  split; [apply all_calls_run; unfold VerifyRSAPSS; unmodified |].
  split; [apply all_calls_run; unfold SignRSAPKCS1v15; unmodified |].
  split; [rewrite <- pad_sig_spec; apply VerifyRSAPKCS1v15_passes |].
  split.
  { intros op pkey ctx Hres.
    destruct (exported_reaches op oh priv pub msg label w pkey ctx Hres)
      as (rest & pre & ->).
    unfold reaches. apply Exists_app. right. apply Exists_cons_hd.
    unfold crypt_call. destruct (is_decrypt op); split; reflexivity. }
  split.
  { intro Hmd.
    split; [apply SignRSAPSS_reaches; exact Hmd |].
    split; [apply VerifyRSAPSS_reaches; exact Hmd |].
    intro Hs.
    split; [apply SignRSAPKCS1v15_reaches; assumption |].
    rewrite <- pad_sig_spec. apply VerifyRSAPKCS1v15_reaches; assumption. }
  split; intro H; apply C_uint_small; split;
    [apply len_nonneg | exact H | apply len_nonneg | exact H].
Qed.
End Unmodified.

Lemma bytes_reach_library_unmodified_witness :
  let priv := {| priv_key := 9%N |} in
  let pub := {| pub_key := 9%N |} in
  result RefLib.lib
    (setup_of (X := sample) OpEncryptRSAPKCS1 None priv pub [])
    RefLib.init = Returned (1%N, 2%N, None)
  /\ cryptoHashToMD (externals := sample) 3 <> nil
  /\ reaches [x01; x02] None
       (calls RefLib.lib
          (exported (X := sample) OpEncryptRSAPKCS1 None priv pub
             [x01; x02] []) RefLib.init)
  /\ reaches [x01; x02] (Some [x00; x00; x00; x03])
       (calls RefLib.lib
          (VerifyRSAPKCS1v15 (X := sample) pub 3 [x01; x02] [x03] false)
          RefLib.init).
Proof.
  cbv zeta.
  assert (Hmd : cryptoHashToMD (externals := sample) 3 <> nil)
    by (vm_compute; discriminate).
  destruct (bytes_reach_library_unmodified (X := sample) RefLib.lib
              {| priv_key := 9%N |} {| pub_key := 9%N |} None 3
              [x01; x02] [x03] [] 0 false RefLib.init)
    as (_ & _ & _ & _ & _ & Hop & Hsv & _).
  split; [reflexivity |]. split; [exact Hmd |].
  split; [exact (Hop OpEncryptRSAPKCS1 1%N 2%N eq_refl) |].
  destruct (Hsv Hmd) as (_ & _ & Hp).
  destruct Hp as [_ Hv]; [discriminate |]. exact Hv.
Defined.

(* ================================================================== *)
(** * C6: the padding flag of each operation                           *)
(* ================================================================== *)

(** Follows a run one foreign call or one test at a time. *)
Ltac run_step lib :=
  match goal with
  | |- context [lib ?c ?w] =>
      let x := fresh "x" in
      let w' := fresh "w" in
      destruct (lib c w) as [x w'] eqn:?; simpl
  | |- context [if ?b then _ else _] => destruct b eqn:?; simpl
  end.

Section Padding.
Context {X : externals} {W : Type} (lib : forall c : call, W -> resp c * W).










End Padding.



(* ================================================================== *)
(** * C8: the salt length of the PSS routines                          *)
(* ================================================================== *)

Lemma C_int_small (x : Z) : - 2^31 <= x < 2^31 -> C_int x = x.
Proof. intro H. unfold C_int. rewrite Z.mod_small; lia. Qed.

(** C8, as stated, fails in its last clause: the non-zero salt length
    2^32 does not reach the library unchanged; [SignRSAPSS] hands over
    salt length 0. *)
Lemma SignRSAPSS_truncates_salt :
  let p := SignRSAPSS (X := sample) {| priv_key := 9%N |} 3
             [x01; x02] 4294967296 in
  calls RefLib.lib p RefLib.init
    = [RSA_size 9%N; RSA_sign_pss_mgf1 9%N 4 [x01; x02] 2 103%N 0]
  /\ ~ salt_passed (calls RefLib.lib p RefLib.init) 4294967296.
Proof.
  cbv zeta. split; [reflexivity |].
  intro H.
  change (calls RefLib.lib _ RefLib.init)
    with [RSA_size 9%N; RSA_sign_pss_mgf1 9%N 4 [x01; x02] 2 103%N 0] in H.
  unfold salt_passed in H. rewrite Forall_forall in H.
  specialize (H (RSA_sign_pss_mgf1 9%N 4 [x01; x02] 2 103%N 0)
                (or_intror (or_introl eq_refl)) 0 eq_refl).
  discriminate H.
Qed.

Section Salt.
Context {X : externals} {W : Type} (lib : forall c : call, W -> resp c * W).

(** C8, amended.  For a salt length that fits C's 32-bit [int]: every
    PSS signing call of [SignRSAPSS] carries -1 when the caller gave 0
    and the caller's salt length otherwise; every PSS verification
    call of [VerifyRSAPSS] carries -2 when the caller gave 0 and the
    caller's salt length otherwise; and when the hash is supported
    the call is made. *)
Theorem pss_salt_length (priv : PrivateKeyRSA) (pub : PublicKeyRSA) (h : N)
    (hashed sig : bytes) (saltLen : Z) (w : W) :
  - 2^31 <= saltLen < 2^31 ->
  let for_sign := if saltLen =? 0 then -1 else saltLen in
  let for_verify := if saltLen =? 0 then -2 else saltLen in
  let signing := calls lib (SignRSAPSS priv h hashed saltLen) w in
  let verifying := calls lib (VerifyRSAPSS pub h hashed sig saltLen) w in
  salt_passed signing for_sign
  /\ salt_passed verifying for_verify
  /\ (cryptoHashToMD h <> nil ->
      Exists (fun c => pss_salt_arg c = Some for_sign) signing
      /\ Exists (fun c => pss_salt_arg c = Some for_verify) verifying).
Proof.
  intro Hr. cbv zeta.
  assert (Hs : C_int (if saltLen =? 0 then -1 else saltLen)
               = if saltLen =? 0 then -1 else saltLen)
    by (apply C_int_small; destruct (saltLen =? 0); lia).
  assert (Hv : C_int (if saltLen =? 0 then -2 else saltLen)
               = if saltLen =? 0 then -2 else saltLen)
    by (apply C_int_small; destruct (saltLen =? 0); lia).
  unfold salt_passed. split; [| split].
  - apply all_calls_run. unfold SignRSAPSS. rewrite Hs.
    repeat calls_step; intros x E; simpl in E; congruence.
  - apply all_calls_run. unfold VerifyRSAPSS. rewrite Hv.
    repeat calls_step; intros x E; simpl in E; congruence.
  - intro Hmd. apply N.eqb_neq in Hmd. unfold nil in Hmd.
    unfold calls, trace, SignRSAPSS, VerifyRSAPSS, is_nil.
    rewrite Hmd, Hs, Hv. simpl.
    destruct (lib (RSA_size (priv_key priv)) w) as [size w1]. simpl.
    destruct (lib (RSA_sign_pss_mgf1 _ _ _ _ _ _) w1) as [[[r wr] ol] w2].
    destruct (lib (RSA_verify_pss_mgf1 _ _ _ _ _ _ _) w) as [r' w3].
    split.
    + destruct (run lib _ w2) as [[o w4] tr]. simpl.
      apply Exists_cons_tl, Exists_cons_hd. reflexivity.
    + destruct (run lib _ w3) as [[o w4] tr]. simpl.
      apply Exists_cons_hd. reflexivity.
Qed.
End Salt.

Lemma pss_salt_length_witness :
  - 2^31 <= 0 < 2^31 /\
  salt_passed
    (calls RefLib.lib
       (SignRSAPSS (X := sample) {| priv_key := 9%N |} 3 [x01; x02] 0)
       RefLib.init) (-1)
  /\ salt_passed
       (calls RefLib.lib
          (VerifyRSAPSS (X := sample) {| pub_key := 9%N |} 3 [x01; x02]
             [x03] 0) RefLib.init) (-2).
Proof.
  split; [lia |].
  destruct (pss_salt_length (X := sample) RefLib.lib {| priv_key := 9%N |}
              {| pub_key := 9%N |} 3 [x01; x02] [x03] 0 RefLib.init)
    as (Hs & Hv & _); [lia |].
  split; [exact Hs | exact Hv].
Defined.

(* ================================================================== *)
(** * C9: short signatures in VerifyRSAPKCS1v15                        *)
(* ================================================================== *)

Section ShortSignature.
Context {X : externals} {W : Type} (lib : forall c : call, W -> resp c * W).

(** The calls of [VerifyRSAPKCS1v15] on a pre-hashed message, with a
    supported hash and [strictFIPS] off. *)
Lemma VerifyRSAPKCS1v15_hashed_calls (pub : PublicKeyRSA) (h : N)
    (msg sig : bytes) (w : W) :
  cryptoHashToMD h <> nil -> strictFIPS = false ->
  let size := fst (lib (RSA_size (pub_key pub)) w) in
  let w1 := snd (lib (RSA_size (pub_key pub)) w) in
  let nid := fst (lib (EVP_MD_type (cryptoHashToMD h)) w1) in
  calls lib (VerifyRSAPKCS1v15 pub h msg sig true) w
  = [RSA_size (pub_key pub); EVP_MD_type (cryptoHashToMD h);
     RSA_verify nid msg (C_uint (len msg))
       (pad_sig size sig) (C_uint (len (pad_sig size sig))) (pub_key pub)].
Proof.
  intros Hmd Hs. apply N.eqb_neq in Hmd. unfold nil in Hmd. cbv zeta.
  unfold calls, trace, VerifyRSAPKCS1v15, PanicIfStrictFIPS, is_nil.
  cbn [bind C run].
  destruct (lib (RSA_size (pub_key pub)) w) as [size w1]. cbn [fst snd].
  rewrite Hmd, Hs. cbn [bind C run].
  destruct (lib (EVP_MD_type _) w1) as [nid w2]. cbn [fst snd].
  destruct (lib (RSA_verify _ _ _ _ _ _) w2) as [r w3].
  destruct (r =? 0); reflexivity.
Qed.

(** C9, amended.  With [size] the key size the library reports: for a
    signature shorter than [size], a run of [VerifyRSAPKCS1v15] is the
    run on the signature of length [size] made of zero bytes followed
    by [sig] (same result, same calls, same final state).  For a
    signature of length at least [size], every call that carries a
    signature carries [sig] itself, announced with its length as a
    [C.uint], which is its length when that is below 2^32; and the
    signature does reach the library when the hash is supported (and,
    for a pre-hashed message, [strictFIPS] is off). *)
Theorem short_signature_zero_padded (pub : PublicKeyRSA) (h : N)
    (msg sig : bytes) (msgIsHashed : bool) (w : W) :
  let size := fst (lib (RSA_size (pub_key pub)) w) in
  let padded := repeat x00 (N.to_nat size - List.length sig) ++ sig in
  (len sig < Z.of_N size ->
   len padded = Z.of_N size
   /\ run lib (VerifyRSAPKCS1v15 pub h msg sig msgIsHashed) w
      = run lib (VerifyRSAPKCS1v15 pub h msg padded msgIsHashed) w)
  /\ (Z.of_N size <= len sig ->
      passes_unmodified msg (Some sig)
        (calls lib (VerifyRSAPKCS1v15 pub h msg sig msgIsHashed) w)
      /\ (cryptoHashToMD h <> nil ->
          (msgIsHashed = true -> strictFIPS = false) ->
          reaches msg (Some sig)
            (calls lib (VerifyRSAPKCS1v15 pub h msg sig msgIsHashed) w))
      /\ (len sig < 2^32 -> C_uint (len sig) = len sig)).
Proof.
  cbv zeta. split.
  - intro Hlt.
    assert (L : len (repeat x00 (N.to_nat (fst (lib (RSA_size (pub_key pub)) w))
                                 - List.length sig) ++ sig)
                = Z.of_N (fst (lib (RSA_size (pub_key pub)) w))).
    { unfold len in *. rewrite length_app, repeat_length. lia. }
    split; [exact L |].
    unfold VerifyRSAPKCS1v15. simpl.
    destruct (lib (RSA_size (pub_key pub)) w) as [size w1]. simpl in *.
    rewrite (pad_sig_spec size sig).
    rewrite (pad_sig_spec size (repeat x00 _ ++ sig)).
    rewrite L.
    destruct (Z.ltb_spec (len sig) (Z.of_N size)) as [_ | ?]; [| lia].
    rewrite Z.ltb_irrefl. reflexivity.
  - intro Hge.
    pose proof (VerifyRSAPKCS1v15_passes lib pub h msg sig msgIsHashed w) as P.
    pose proof (VerifyRSAPKCS1v15_reaches lib pub h msg sig msgIsHashed w)
      as Q.
    rewrite pad_sig_spec in P, Q.
    destruct (Z.ltb_spec (len sig)
                (Z.of_N (fst (lib (RSA_size (pub_key pub)) w))))
      as [? | _]; [lia |].
    split; [exact P |]. split; [exact Q |].
    intro H. apply C_uint_small. split; [apply len_nonneg | exact H].
Qed.
End ShortSignature.

(** C9, as stated, fails in its second half: a signature of 2^32
    bytes is at least as long as the four-byte key and reaches
    [RSA_verify] with the announced length 0, because
    [C.uint(len(sig))] keeps the low 32 bits of the length. *)
Lemma long_signature_length_truncated :
  let sig := repeat x00 (Z.to_nat 4294967296) in
  let p := VerifyRSAPKCS1v15 (X := sample) {| pub_key := 9%N |} 3
             [x01; x02] sig true in
  4 <= len sig
  /\ calls RefLib.lib p RefLib.init
     = [RSA_size 9%N; EVP_MD_type 103%N;
        RSA_verify 1 [x01; x02] 2 sig 0 9%N]
  /\ len sig <> 0.
Proof.
  cbv zeta.
  set (sig := repeat x00 (Z.to_nat 4294967296)).
  assert (L : len sig = 4294967296).
  { unfold sig, len. rewrite repeat_length. apply Z2Nat.id. discriminate. }
  clearbody sig.
  split; [rewrite L; discriminate |].
  split; [| rewrite L; discriminate].
  rewrite (VerifyRSAPKCS1v15_hashed_calls (X := sample) RefLib.lib
             {| pub_key := 9%N |} 3 [x01; x02] sig RefLib.init);
    [| vm_compute; discriminate | reflexivity].
  cbv zeta. rewrite pad_sig_spec, L.
  cbn [pub_key].
  change (fst (RefLib.lib (RSA_size 9%N) RefLib.init)) with 4%N.
  change (4294967296 <? Z.of_N 4) with false. cbv iota.
  rewrite L. reflexivity.
Qed.

Lemma short_signature_zero_padded_witness :
  len [x03] < 4 /\
  run RefLib.lib (VerifyRSAPKCS1v15 (X := sample) {| pub_key := 9%N |} 3
                    [x01; x02] [x03] true) RefLib.init
  = run RefLib.lib (VerifyRSAPKCS1v15 (X := sample) {| pub_key := 9%N |} 3
                      [x01; x02] [x00; x00; x00; x03] true) RefLib.init.
Proof.
  split; [reflexivity |].
  destruct (short_signature_zero_padded (X := sample) RefLib.lib
              {| pub_key := 9%N |} 3 [x01; x02] [x03] true RefLib.init)
    as [H _].
  apply H. reflexivity.
Defined.

(* ================================================================== *)
(** * C10: GenerateKeyRSA                                              *)
(* ================================================================== *)

Lemma run_C {W} (lib : forall c : call, W -> resp c * W) (c : call) (w : W) :
  run lib (C c) w
  = (Returned (fst (lib c w)), snd (lib c w), [existT resp c (fst (lib c w))]).
Proof. unfold C. simpl. destruct (lib c w). reflexivity. Qed.

Lemma run_defer_RSA_free {W R} (lib : forall c : call, W -> resp c * W)
    (key : ptr) (p : prog R) (w : W) :
  run lib (defer (C (RSA_free key)) p) w =
  let '(o, w1, tr) := run lib p w in
  (o, snd (lib (RSA_free key) w1),
   tr ++ [existT resp (RSA_free key) (fst (lib (RSA_free key) w1))]).
Proof.
  revert w. induction p as [r | m | c' k IH]; intro w; simpl.
  - destruct (lib (RSA_free key) w) as [x w1]. reflexivity.
  - destruct (lib (RSA_free key) w) as [x w1]. reflexivity.
  - destruct (lib c' w) as [x w1]. rewrite IH.
    destruct (run lib (k x) w1) as [[o w2] tr]. reflexivity.
Qed.



Section Generate.
Context {W : Type} (lib : forall c : call, W -> resp c * W).

End Generate.


(* ================================================================== *)
(** * C5: the test-vector harness                                      *)
(* ================================================================== *)

Module VectorsFacts.
Import Vectors Harness.

Lemma length_append (a b : string) :
  String.length (a ++ b) = (String.length a + String.length b)%nat.
Proof. induction a as [| c a IH]; simpl; [reflexivity | now rewrite IH]. Qed.

Lemma drop_append (a b : string) : drop (String.length a) (a ++ b) = b.
Proof. induction a as [| c a IH]; simpl; [destruct b |]; auto. Qed.

Lemma take_append (a b : string) : take (String.length a) (a ++ b) = a.
Proof.
  unfold take. induction a as [| c a IH]; simpl.
  - destruct b; reflexivity.
  - rewrite IH. reflexivity.
Qed.

Lemma HasSuffix_crlf (a : string) : HasSuffix (a ++ crlf) crlf = true.
Proof.
  unfold HasSuffix. rewrite length_append. simpl String.length.
  replace (String.length a + 2 - 2)%nat with (String.length a) by lia.
  rewrite drop_append.
  replace (2 <=? String.length a + 2)%nat with true
    by (symmetry; apply Nat.leb_le; lia).
  reflexivity.
Qed.

Lemma take_crlf (a : string) :
  take (String.length (a ++ crlf) - 2) (a ++ crlf) = a.
Proof.
  rewrite length_append. simpl String.length.
  replace (String.length a + 2 - 2)%nat with (String.length a) by lia.
  apply take_append.
Qed.


Section Checked.
Context {E : externals}.

Lemma loop_cons_crlf (st : state) (line : string) (rest : list string)
    (eof : bool) :
  loop st ((line ++ crlf)%string :: rest) eof =
  match step st (line ++ crlf) with
  | Running st' => loop st' rest eof
  | v => v
  end.
Proof.
  cbn [loop].
  replace (String.length (line ++ crlf) =? 0)%nat with false; [reflexivity |].
  symmetry. apply Nat.eqb_neq. rewrite length_append. simpl. lia.
Qed.

Lemma prefix_nil (x : string) : String.prefix "" x = true.
Proof. destruct x; reflexivity. Qed.

(** Opens [step] on a line that starts with a known word. *)
Ltac open_step Hh Hc :=
  match goal with
  | st : state |- _ =>
      destruct st as [ln0 h0 ch0 msg0 hashed0 r0 s0 [crv0 x0 y0]];
      cbn [h pub Curve] in Hh, Hc; subst h0 crv0
  end;
  unfold step; rewrite HasSuffix_crlf, take_crlf;
  cbn [negb append Ascii.eqb Bool.eqb h pub lineNo Curve];
  unfold variable, fromHex;
  cbn [HasPrefix String.prefix append drop];
  repeat match goal with
         | |- context [ascii_dec ?a ?b] => destruct (ascii_dec a b);
                                           try congruence
         end;
  rewrite ?prefix_nil.

Lemma step_Msg st f crv x v :
  h st = Some f -> Curve (pub st) = Some crv ->
  hex_DecodeString x = Some v ->
  step st (("Msg = " ++ x) ++ crlf) = Running (after_Msg st v).
Proof. intros Hh Hc Hv. open_step Hh Hc. rewrite Hv. reflexivity. Qed.

Lemma step_Qx st f crv x v :
  h st = Some f -> Curve (pub st) = Some crv -> SetString16 x = Some v ->
  step st (("Qx = " ++ x) ++ crlf) = Running (after_Qx st v).
Proof. intros Hh Hc Hv. open_step Hh Hc. rewrite Hv. reflexivity. Qed.

Lemma step_Qy st f crv x v :
  h st = Some f -> Curve (pub st) = Some crv -> SetString16 x = Some v ->
  step st (("Qy = " ++ x) ++ crlf) = Running (after_Qy st v).
Proof. intros Hh Hc Hv. open_step Hh Hc. rewrite Hv. reflexivity. Qed.

Lemma step_R st f crv x v :
  h st = Some f -> Curve (pub st) = Some crv -> SetString16 x = Some v ->
  step st (("R = " ++ x) ++ crlf) = Running (after_R st v).
Proof. intros Hh Hc Hv. open_step Hh Hc. rewrite Hv. reflexivity. Qed.

Lemma step_S st f crv x v :
  h st = Some f -> Curve (pub st) = Some crv -> SetString16 x = Some v ->
  step st (("S = " ++ x) ++ crlf) = Running (after_S st v).
Proof. intros Hh Hc Hv. open_step Hh Hc. rewrite Hv. reflexivity. Qed.

(** The six lines of a record, read with a hash and a curve in force:
    one verification, on the values of the record's own lines, decides
    between going on, with the hash and the curve still in force, and
    failing. *)
Lemma record_steps (st : state) (f : hashfn) (crv : curve)
    (m qx qy rs ss : string) (c : ascii) (rest : string)
    (mb : bytes) (x y rv sv : Z) :
  h st = Some f -> Curve (pub st) = Some crv ->
  hex_DecodeString m = Some mb ->
  SetString16 qx = Some x -> SetString16 qy = Some y ->
  SetString16 rs = Some rv -> SetString16 ss = Some sv ->
  let key := {| Curve := Some crv; X := Some x; Y := Some y |} in
  let got := if boring_Enabled
             then HashVerify key mb (Some rv) (Some sv) (ch st)
             else Verify key (Sum f mb) (Some rv) (Some sv) in
  exists st' message,
    (h st' = Some f /\ ch st' = ch st /\ Curve (pub st') = Some crv)
    /\ forall more eof,
         loop st (record m qx qy rs ss c rest ++ more) eof
         = if Bool.eqb got (Ascii.eqb c "P") then loop st' more eof
           else Failed message.
Proof.
  intros Hh Hc Hm Hx Hy Hr Hs. cbv zeta.
  pose proof (step_Msg st f crv m mb Hh Hc Hm) as E1.
  pose proof (step_Qx (after_Msg st mb) f crv qx x Hh Hc Hx) as E2.
  pose proof (step_Qy (after_Qx (after_Msg st mb) x) f crv qy y Hh Hc Hy)
    as E3.
  pose proof (step_R (after_Qy (after_Qx (after_Msg st mb) x) y) f crv rs rv
                Hh Hc Hr) as E4.
  pose proof (step_S (after_R (after_Qy (after_Qx (after_Msg st mb) x) y) rv)
                f crv ss sv Hh Hc Hs) as E5.
  destruct st as [ln0 h0 ch0 msg0 hashed0 r0 s0 [crv0 x0 y0]].
  cbn [h pub Curve ch] in *. subst h0 crv0.
  do 2 eexists. split; cycle 1.
  - intros more eof. unfold record. cbn [map app].
    rewrite loop_cons_crlf, E1, loop_cons_crlf, E2, loop_cons_crlf, E3,
      loop_cons_crlf, E4, loop_cons_crlf, E5, loop_cons_crlf.
    unfold step. rewrite HasSuffix_crlf, take_crlf.
    cbn [negb append Ascii.eqb Bool.eqb].
    cbn [h pub lineNo after_Msg after_Qx after_Qy after_R after_S Curve].
    unfold variable.
    cbn [HasPrefix String.prefix append].
    repeat match goal with
           | |- context [ascii_dec ?a ?b] => destruct (ascii_dec a b);
                                             try congruence
           end.
    rewrite ?prefix_nil.
    unfold check_result. cbn [String.get Nat.eqb].
    cbn [msg r s ch pub lineNo X Y Curve after_Msg after_Qx after_Qy after_R
           after_S].
    destruct (Bool.eqb _ (Ascii.eqb c "P")); cbn [negb]; reflexivity.
  - cbn [h ch pub Curve]. repeat split; reflexivity.
Qed.


Lemma step_P224_boring (st : state) (hashname : string) :
  boring_Enabled = true ->
  step st (("[P-224," ++ hashname ++ "]") ++ crlf) = Running (counted st).
Proof.
  intro Hb. unfold step.
  rewrite HasSuffix_crlf, take_crlf. cbn [negb append Ascii.eqb Bool.eqb].
  unfold header.
  change (String "[" (String "P" (String "-" (String "2" (String "2"
            (String "4" (String "," (hashname ++ "]"))))))))
    with (("[P-224," ++ hashname) ++ "]")%string.
  replace (String.length (("[P-224," ++ hashname) ++ "]") - 1)%nat
    with (String.length ("[P-224," ++ hashname)%string)
    by (rewrite (length_append ("[P-224," ++ hashname) "]");
        change (String.length "]") with 1%nat; lia).
  rewrite take_append.
  replace (String.length ("[P-224," ++ hashname)%string
           <? 2)%nat with false
    by (symmetry; apply Nat.ltb_ge; simpl; lia).
  cbn. destruct (SplitN2 hashname) as [a b]. cbn.
  rewrite Hb. reflexivity.
Qed.


End Checked.


End VectorsFacts.

(* ================================================================== *)
(** * C7: the release script does not redefine a release               *)
(* ================================================================== *)

Module ReleaseFacts.
Import Release.

Section NotRedefined.
Context {W : Type} (tools : cmd -> W -> (Z * string) * W).

(** The commands of a run of the script that stops at the look into
    RELEASES. *)
Lemma exec_found (args : list string)
    (commit base boring out : string) (w w1 w2 w3 w4 : W) :
  let rev := match args with [a] => a | _ => "HEAD" end in
  let version := (base ++ "b" ++ boring)%string in
  let message := ("found " ++ version ++ " in RELEASES - not rereleasing")%string in
  (List.length args <= 1)%nat ->
  tools (rev_parse_12 rev) w = (0, commit, w1) -> commit <> "" ->
  tools (tag_of rev) w1 = (0, base, w2) -> base <> "" ->
  tools (show_VERSION commit) w2 = (0, boring, w3) -> boring <> "" ->
  tools (grep_RELEASES ("^" ++ version ++ " ")) w3 = (0, out, w4) ->
  exec tools (build_release args) w
  = (let st := fst (fst (tools (echo_stderr message) w4)) in
     if st =? 0 then 2 else st,
     [rev_parse_12 rev; tag_of rev; show_VERSION commit;
      grep_RELEASES ("^" ++ version ++ " "); echo_stderr message]).
Proof.
  cbv zeta. intros Hargs H1 Hc H2 Hb H3 Hv H4.
  apply String.eqb_neq in Hc, Hb, Hv.
  destruct args as [| a [| b l]]; [| | simpl in Hargs; lia];
    unfold build_release, say, must; cbn [exec];
    rewrite H1; cbn [Z.eqb]; rewrite Hc; cbn [exec];
    rewrite H2; cbn [Z.eqb]; rewrite Hb; cbn [exec];
    rewrite H3; cbn [Z.eqb]; rewrite Hv; cbn [exec];
    rewrite H4; cbn [Z.eqb exec];
    destruct (tools (echo_stderr _) w4) as [[st ?] ?]; cbn [fst];
    destruct (st =? 0); reflexivity.
Qed.

(** C7, amended.  The script is called with at most one argument and
    works out a commit, a base Go tag and a BoringCrypto version, all
    non-empty.  If the version [base ++ "b" ++ boring] is found at
    the start of a line of RELEASES, as the script's own test
    [grep "^$version " RELEASES] reports it, the script stops after
    that test and its message: it runs no command that builds or
    publishes, and it exits with a status that is not 0, namely 2 when
    the message could be written and the status of the failed [echo]
    otherwise (the script runs under [set -e]). *)
Theorem release_not_redefined (args : list string)
    (commit base boring out : string) (w w1 w2 w3 w4 : W) :
  let rev := match args with [a] => a | _ => "HEAD" end in
  let version := (base ++ "b" ++ boring)%string in
  let message := ("found " ++ version ++ " in RELEASES - not rereleasing")%string in
  (List.length args <= 1)%nat ->
  tools (rev_parse_12 rev) w = (0, commit, w1) -> commit <> "" ->
  tools (tag_of rev) w1 = (0, base, w2) -> base <> "" ->
  tools (show_VERSION commit) w2 = (0, boring, w3) -> boring <> "" ->
  tools (grep_RELEASES ("^" ++ version ++ " ")) w3 = (0, out, w4) ->
  let echoed := fst (fst (tools (echo_stderr message) w4)) in
  fst (exec tools (build_release args) w) <> 0
  /\ fst (exec tools (build_release args) w)
     = (if echoed =? 0 then 2 else echoed)
  /\ Forall (fun c => builds_or_publishes c = false)
       (snd (exec tools (build_release args) w))
  /\ snd (exec tools (build_release args) w)
     = [rev_parse_12 rev; tag_of rev; show_VERSION commit;
        grep_RELEASES ("^" ++ version ++ " "); echo_stderr message].
Proof.
  cbv zeta. intros Hargs H1 Hc H2 Hb H3 Hv H4.
  rewrite (exec_found args commit base boring out w w1 w2 w3 w4
             Hargs H1 Hc H2 Hb H3 Hv H4).
  cbv zeta. cbn [fst snd].
  split; [| split; [reflexivity | split; [| reflexivity]]].
  - match goal with
    | |- (if ?s =? 0 then _ else _) <> 0 =>
        destruct (Z.eqb_spec s 0); [discriminate | assumption]
    end.
  - repeat constructor.
Qed.
End NotRedefined.

(** C7, as stated, fails in the status: with standard error closed
    the message cannot be written, and [set -e] ends the script with
    the status 1 of the failed [echo], not 2.  Nothing is built or
    published on that path either. *)
Lemma release_found_exit_status_not_2 :
  exec (tools_mute true) (build_release []) tt
  = (1, [rev_parse_12 "HEAD"; tag_of "HEAD"; show_VERSION "abcdef012345";
         grep_RELEASES "^go1.12.1b4 ";
         echo_stderr "found go1.12.1b4 in RELEASES - not rereleasing"])
  /\ fst (exec (tools_mute true) (build_release []) tt) <> 2.
Proof. split; [reflexivity | discriminate]. Qed.

Lemma release_not_redefined_witness :
  (List.length (@List.nil string) <= 1)%nat
  /\ "abcdef012345" <> "" /\ "go1.12.1" <> "" /\ "4" <> ""
  /\ fst (exec (tools true) (build_release []) tt) = 2
  /\ Forall (fun c => builds_or_publishes c = false)
       (snd (exec (tools true) (build_release []) tt)).
Proof.
  split; [simpl; lia |].
  split; [discriminate |]. split; [discriminate |]. split; [discriminate |].
  destruct (release_not_redefined (tools true) [] "abcdef012345" "go1.12.1"
              "4" "" tt tt tt tt tt)
    as (_ & H1 & H2 & _);
    try reflexivity; try discriminate; [simpl; lia |].
  split; [exact H1 | exact H2].
Defined.

(** Without a match in RELEASES the same script goes on to build and
    to publish. *)
Lemma release_builds_when_new :
  fst (exec (tools false) (build_release []) tt) = 0
  /\ Exists (fun c => builds_or_publishes c = true)
       (snd (exec (tools false) (build_release []) tt)).
Proof.
  split; [reflexivity |].
  apply Exists_exists. exists mktemp_d. split; [| reflexivity].
  simpl. tauto.
Qed.

End ReleaseFacts.

(* ================================================================== *)
(** * More facts about rsa.go                                          *)
(* ================================================================== *)

Section Lifetime.
Context {X : externals} {W : Type} (lib : forall c : call, W -> resp c * W).

(** After a successful [setupRSA], [cryptRSA] frees the context and
    then the EVP_PKEY as its last two calls, and frees nothing before:
    each handle is freed once, whether the operation succeeds, fails or
    panics on a slice bound. *)
Theorem cryptRSA_frees_handles key padding h label saltLen ch init crypt
    input (w w1 : W) pkey ctx tr :
  (init = decryptInit /\ crypt = decrypt)
  \/ (init = encryptInit /\ crypt = encrypt) ->
  run lib (setupRSA key padding h label saltLen ch init) w
    = (Returned (pkey, ctx, None), w1, tr) ->
  exists mid,
    calls lib (cryptRSA key padding h label saltLen ch init crypt input) w
      = map called tr ++ mid ++ [EVP_PKEY_CTX_free ctx; EVP_PKEY_free pkey]
    /\ Forall (fun c => frees_pkey_or_ctx c = false) (map called tr ++ mid).
Proof.
  intros Hic Hsetup.
  assert (Htr : Forall (fun c => frees_pkey_or_ctx c = false) (map called tr)).
  { pose proof (setupRSA_never_frees lib key padding h label saltLen ch init w)
      as F.
    unfold calls, trace in F. rewrite Hsetup in F. apply F.
    intro c0. destruct Hic as [[-> _] | [-> _]];
      unfold decryptInit, encryptInit; repeat calls_step; reflexivity. }
  unfold calls, trace, cryptRSA. rewrite run_bind, Hsetup.
  cbv iota beta. rewrite !run_defer.
  match goal with
  | |- context [run lib ?body w1] =>
      pose proof (all_calls_run lib (fun c => frees_pkey_or_ctx c = false)
                    body w1) as Hmid;
      destruct (run lib body w1) as [[o w2] mid] eqn:Ebody
  end.
  unfold calls, trace in Hmid. rewrite Ebody in Hmid. cbn [snd] in Hmid.
  cbv iota beta. unfold C. cbn [run].
  destruct (lib (EVP_PKEY_CTX_free ctx) w2) as [[] w3]. cbv iota beta.
  destruct (lib (EVP_PKEY_free pkey) w3) as [[] w4]. cbn [fst snd].
  exists (map called mid). split.
  - rewrite !map_app. cbn [map called projT1]. rewrite <- !app_assoc.
    reflexivity.
  - apply Forall_app. split; [exact Htr |]. apply Hmid.
    destruct Hic as [[_ ->] | [_ ->]]; unfold decrypt, encrypt;
      repeat calls_step; reflexivity.
Qed.

(** [GenerateKeyRSA] frees the key it got from [RSA_new] once, as its
    last call, on every path (generation failed, success, panic); when
    [RSA_new] answers nil it makes no other call. *)
Theorem GenerateKeyRSA_frees_key (bits : Z) (w : W) :
  let key := fst (lib RSA_new w) in
  if is_nil key then calls lib (GenerateKeyRSA bits) w = [RSA_new]
  else exists mid,
      calls lib (GenerateKeyRSA bits) w = RSA_new :: mid ++ [RSA_free key]
      /\ Forall (fun c => is_RSA_free c = false /\ is_RSA_new c = false) mid.
Proof.
  cbv zeta. unfold calls, trace, GenerateKeyRSA.
  rewrite run_bind, run_C.
  destruct (lib RSA_new w) as [key w0]. cbn [fst snd].
  destruct (is_nil key); [reflexivity |].
  rewrite run_defer_RSA_free.
  match goal with
  | |- context [run lib ?body w0] =>
      pose proof (all_calls_run lib
                    (fun c => is_RSA_free c = false /\ is_RSA_new c = false)
                    body w0) as Hmid;
      destruct (run lib body w0) as [[o w2] mid] eqn:Ebody
  end.
  unfold calls, trace in Hmid. rewrite Ebody in Hmid. cbn [snd] in Hmid.
  exists (map called mid). split.
  - cbn [snd app map called projT1]. rewrite map_app. reflexivity.
  - apply Hmid. unfold bnToBig.
    repeat calls_step; split; reflexivity.
Qed.
End Lifetime.

Lemma cryptRSA_frees_handles_witness :
  let setup := setupRSA (X := sample) 9%N 1 None [] 0 0%N encryptInit in
  let op := cryptRSA (X := sample) 9%N 1 None [] 0 0%N encryptInit encrypt
              [x01; x02] in
  result RefLib.lib setup RefLib.init = Returned (1%N, 2%N, None)
  /\ exists mid,
       calls RefLib.lib op RefLib.init
       = calls RefLib.lib setup RefLib.init ++ mid
         ++ [EVP_PKEY_CTX_free 2%N; EVP_PKEY_free 1%N]
       /\ Forall (fun c => frees_pkey_or_ctx c = false)
            (calls RefLib.lib setup RefLib.init ++ mid).
Proof.
  cbv zeta. split; [reflexivity |].
  refine (cryptRSA_frees_handles (X := sample) RefLib.lib 9%N 1 None [] 0 0%N
            encryptInit encrypt [x01; x02] RefLib.init _ 1%N 2%N _
            (or_intror (conj eq_refl eq_refl)) eq_refl).
Defined.

Section Bounds.
Context {X : externals} {W : Type} (lib : forall c : call, W -> resp c * W).

(** A signature that [SignRSAPSS] or [SignRSAPKCS1v15] returns is never
    longer than the key size [RSA_size] reported: the functions cut the
    buffer of that size to the length the library stored, and panic on
    the slice bound when that length is larger. *)
Theorem signature_within_key_size (priv : PrivateKeyRSA) (h : N)
    (msg : bytes) (saltLen : Z) (msgIsHashed : bool) (w : W) (sig : bytes) :
  let size := fst (lib (RSA_size (priv_key priv)) w) in
  (result lib (SignRSAPSS priv h msg saltLen) w = Returned (Some sig, None) ->
   (List.length sig <= N.to_nat size)%nat)
  /\ (result lib (SignRSAPKCS1v15 priv h msg msgIsHashed) w
        = Returned (Some sig, None) ->
      (List.length sig <= N.to_nat size)%nat).
Proof.
  cbv zeta. unfold result, SignRSAPSS, SignRSAPKCS1v15, PanicIfStrictFIPS.
  assert (T : forall (size outLen : N) (written : bytes) (w' : W),
             fst (fst (run lib (s <- slice_to (fill (make size) written) outLen ;;
                                Ret (Some s, @None error)) w'))
               = Returned (Some sig, None) ->
             (List.length sig <= N.to_nat size)%nat).
  { intros size outLen written w'.
    rewrite run_bind, run_slice_to, length_fill. unfold make.
    rewrite repeat_length.
    destruct (N.leb_spec outLen (N.of_nat (N.to_nat size))) as [Hle | Hgt];
      simpl; [| discriminate].
    intro E. injection E as <-. rewrite length_firstn. lia. }
  split.
  - destruct (is_nil (cryptoHashToMD h)); simpl; [discriminate |].
    destruct (lib (RSA_size (priv_key priv)) w) as [size w1]. simpl.
    destruct (lib (RSA_sign_pss_mgf1 _ _ _ _ _ _) w1)
      as [[[r written] outLen] w2].
    destruct (r =? 0); simpl; [discriminate |].
    intro E. apply (T size outLen written w2).
    destruct (run lib _ w2) as [[o w3] tr]. exact E.
  - simpl. destruct (lib (RSA_size (priv_key priv)) w) as [size w1]. simpl.
    destruct (is_nil (cryptoHashToMD h)); simpl; [discriminate |].
    destruct msgIsHashed.
    + destruct strictFIPS; simpl; [discriminate |].
      destruct (lib (EVP_MD_type _) w1) as [nid w2].
      destruct (lib (RSA_sign _ _ _ _) w2) as [[[r written] outLen] w3].
      destruct (r =? 0); simpl; [discriminate |].
      intro E. apply (T size outLen written w3).
      destruct (run lib _ w3) as [[o w4] tr]. exact E.
    + simpl.
      destruct (lib (EVP_RSA_sign _ _ _ _) w1) as [[[r written] outLen] w3].
      destruct (r =? 0); simpl; [discriminate |].
      intro E. apply (T size outLen written w3).
      destruct (run lib _ w3) as [[o w4] tr]. exact E.
Qed.

(** [msgIsHashed] decides the form in which the digest reaches the
    library, in every run: a raw message is never handed to [RSA_sign]
    or [RSA_verify] (nor is [EVP_MD_type] asked), and a pre-hashed one
    never to [EVP_RSA_sign] or [EVP_RSA_verify]. *)
Theorem digest_form_follows_msgIsHashed (priv : PrivateKeyRSA)
    (pub : PublicKeyRSA) (h : N) (msg sig : bytes) (w : W) :
  Forall (fun c => by_nid c = false)
    (calls lib (SignRSAPKCS1v15 priv h msg false) w)
  /\ Forall (fun c => by_md c = false)
       (calls lib (SignRSAPKCS1v15 priv h msg true) w)
  /\ Forall (fun c => by_nid c = false)
       (calls lib (VerifyRSAPKCS1v15 pub h msg sig false) w)
  /\ Forall (fun c => by_md c = false)
       (calls lib (VerifyRSAPKCS1v15 pub h msg sig true) w).
Proof.
  repeat split; apply all_calls_run;
    unfold SignRSAPKCS1v15, VerifyRSAPKCS1v15, PanicIfStrictFIPS;
    cbv iota; repeat calls_step; reflexivity.
Qed.

(** When [setupRSA] returns without error, both handles are non-nil:
    they are what the library answered to [EVP_PKEY_new] and to
    [EVP_PKEY_CTX_new] on that EVP_PKEY, and [EVP_PKEY_set1_RSA] has
    bound the EVP_PKEY to the caller's key with a non-zero status. *)
Theorem setupRSA_success_handles key padding h label saltLen ch init
    (w : W) pkey ctx :
  init = decryptInit \/ init = encryptInit ->
  result lib (setupRSA key padding h label saltLen ch init) w
    = Returned (pkey, ctx, None) ->
  let tr := trace lib (setupRSA key padding h label saltLen ch init) w in
  pkey <> nil /\ ctx <> nil
  /\ answered tr EVP_PKEY_new pkey
  /\ (exists r, r <> 0 /\ answered tr (EVP_PKEY_set1_RSA pkey key) r)
  /\ answered tr (EVP_PKEY_CTX_new pkey) ctx.
Proof.
  intro Hinit. cbv zeta. unfold result, trace. rewrite run_setupRSA.
  unfold setupRSA_body, setupRSA_oaep, C_malloc, setupRSA_pss, fail3, answered.
  destruct Hinit as [-> | ->]; simpl;
    repeat run_step lib;
    intro E; try discriminate E; injection E as <- <-;
    repeat match goal with
           | H : is_nil ?p = false |- _ =>
               apply N.eqb_neq in H; fold nil in H
           | H : (?r =? 0) = false |- _ => apply Z.eqb_neq in H
           end;
    (split; [assumption |]); (split; [assumption |]);
    (split; [left; reflexivity |]);
    (split; [eexists; split; [| right; left; reflexivity]; assumption |]);
    right; right; left; reflexivity.
Qed.

(** With a hash that [hashToMD] does not know, [EncryptRSAOAEP] and
    [DecryptRSAOAEP] always end with an error and no output, and they
    never get as far as the OAEP digest, the label copy or an
    encryption or decryption call. *)
Theorem oaep_unsupported_hash (h : option hash_Hash) (priv : PrivateKeyRSA)
    (pub : PublicKeyRSA) (input label : bytes) (w : W) :
  hashToMD h = nil ->
  (exists e, result lib (EncryptRSAOAEP h pub input label) w
             = Returned (None, Some e))
  /\ Forall (fun c => crypts c = false /\ oaep_specific c = false)
       (calls lib (EncryptRSAOAEP h pub input label) w)
  /\ (exists e, result lib (DecryptRSAOAEP h priv input label) w
                = Returned (None, Some e))
  /\ Forall (fun c => crypts c = false /\ oaep_specific c = false)
       (calls lib (DecryptRSAOAEP h priv input label) w).
Proof.
  intro Hmd.
  unfold result, calls, trace, EncryptRSAOAEP, DecryptRSAOAEP, cryptRSA.
  rewrite !run_bind, !run_setupRSA.
  unfold setupRSA_body, setupRSA_oaep, C_malloc, setupRSA_pss, fail3,
    encryptInit, decryptInit.
  rewrite Hmd, Z.eqb_refl. simpl.
  repeat split.
  - repeat run_step lib; eexists; reflexivity.
  - repeat run_step lib; repeat constructor.
  - repeat run_step lib; eexists; reflexivity.
  - repeat run_step lib; repeat constructor.
Qed.
End Bounds.

Lemma signature_within_key_size_witness :
  result RefLib.lib
    (SignRSAPSS (X := sample) {| priv_key := 9%N |} 5 [x01; x02] 0)
    RefLib.init = Returned (Some [x01; x02], None)
  /\ (List.length [x01; x02] <= 4)%nat.
Proof.
  split; [reflexivity |].
  apply (proj1 (signature_within_key_size (X := sample) RefLib.lib
                  {| priv_key := 9%N |} 5 [x01; x02] 0 false RefLib.init
                  [x01; x02])).
  reflexivity.
Defined.

Lemma setupRSA_success_handles_witness :
  let p := setupRSA (X := sample) 9%N 1 None [] 0 0%N encryptInit in
  result RefLib.lib p RefLib.init = Returned (1%N, 2%N, None)
  /\ 1%N <> nil /\ 2%N <> nil
  /\ answered (trace RefLib.lib p RefLib.init) EVP_PKEY_new 1%N.
Proof.
  cbv zeta. split; [reflexivity |].
  destruct (setupRSA_success_handles (X := sample) RefLib.lib 9%N 1 None []
              0 0%N encryptInit RefLib.init 1%N 2%N (or_intror eq_refl)
              eq_refl) as (H1 & H2 & H3 & _).
  split; [exact H1 |]. split; [exact H2 | exact H3].
Defined.

Lemma oaep_unsupported_hash_witness :
  hashToMD (externals := sample) (Some 9%N) = nil
  /\ exists e,
       result RefLib.lib
         (EncryptRSAOAEP (X := sample) (Some 9%N) {| pub_key := 9%N |}
            [x01] [x02]) RefLib.init = Returned (None, Some e).
Proof.
  split; [reflexivity |].
  apply (oaep_unsupported_hash (X := sample) RefLib.lib (Some 9%N)
           {| priv_key := 9%N |} {| pub_key := 9%N |} [x01] [x02]
           RefLib.init eq_refl).
Defined.

(** Follows a run like [run_step], and splits an answer that is a
    triple. *)
Ltac run_step3 lib :=
  match goal with
  | |- context [lib ?c ?w] =>
      let x := fresh "x" in
      let w' := fresh "w" in
      destruct (lib c w) as [x w'];
      let T := type of x in
      let T' := eval cbv in T in
      match T' with
      | (_ * _ * _)%type => destruct x as [[? ?] ?]
      | _ => idtac
      end; simpl
  | |- context [if ?b then _ else _] => destruct b eqn:?; simpl
  end.

Section OutputBound.
Context {X : externals} {W : Type} (lib : forall c : call, W -> resp c * W).

(** The output [cryptRSA] returns is never longer than the length the
    library announced when it was asked for the size (the first call,
    with a nil output buffer): the second call writes into a buffer of
    that length, and the function panics on the slice bound rather
    than return more. *)
Theorem cryptRSA_output_within_announced key padding h label saltLen ch
    (input : bytes) (w : W) (out : bytes) :
  (result lib (cryptRSA key padding h label saltLen ch decryptInit decrypt
                 input) w = Returned (Some out, None) ->
   exists ctx r junk n,
     answered (trace lib (cryptRSA key padding h label saltLen ch decryptInit
                            decrypt input) w)
       (EVP_PKEY_decrypt ctx None 0 input (C_uint (len input))) (r, junk, n)
     /\ (List.length out <= N.to_nat n)%nat)
  /\ (result lib (cryptRSA key padding h label saltLen ch encryptInit encrypt
                    input) w = Returned (Some out, None) ->
      exists ctx r junk n,
        answered (trace lib (cryptRSA key padding h label saltLen ch
                               encryptInit encrypt input) w)
          (EVP_PKEY_encrypt ctx None 0 input (C_uint (len input))) (r, junk, n)
        /\ (List.length out <= N.to_nat n)%nat).
Proof.
  split; unfold result, trace, cryptRSA, answered;
    rewrite run_bind;
    (match goal with
     | |- context [run lib (setupRSA ?a ?b ?c ?d ?e ?f ?g) w] =>
         destruct (run lib (setupRSA a b c d e f g) w)
           as [[[[[pkey ctx] [e0 |]] | m] w1] tr]
     end;
     [simpl; discriminate | | simpl; discriminate]);
    cbv iota beta; rewrite !run_defer;
    unfold decrypt, encrypt, slice_to; simpl;
    repeat run_step3 lib; try discriminate;
    intro E; injection E as <-;
    exists ctx; do 3 eexists;
    (split; [apply in_or_app; right; left; reflexivity |]);
    rewrite length_firstn;
    match goal with
    | H : (_ <=? N.of_nat (List.length (fill (make ?n) _)))%N = true |- _ =>
        apply N.leb_le in H; rewrite length_fill in H; unfold make in H;
        rewrite repeat_length in H
    end; lia.
Qed.
End OutputBound.

Lemma cryptRSA_output_within_announced_witness :
  let p := cryptRSA (X := sample) 9%N 1 None [] 0 0%N encryptInit encrypt
             [x01; x02] in
  result RefLib.lib p RefLib.init = Returned (Some [x01; x02], None)
  /\ exists ctx r junk n,
       answered (trace RefLib.lib p RefLib.init)
         (EVP_PKEY_encrypt ctx None 0 [x01; x02] (C_uint (len [x01; x02])))
         (r, junk, n)
       /\ (List.length [x01; x02] <= N.to_nat n)%nat.
Proof.
  cbv zeta. split; [reflexivity |].
  apply (proj2 (cryptRSA_output_within_announced (X := sample) RefLib.lib
                  9%N 1 None [] 0 0%N [x01; x02] RefLib.init [x01; x02])).
  reflexivity.
Defined.

(* ------------------------------------------------------------------ *)
(** ** The sign of a big integer is not marshalled                     *)
(* ------------------------------------------------------------------ *)

Lemma Bytes_abs (x : Z) : Bytes (Z.abs x) = Bytes x.
Proof.
  unfold Bytes. cbv zeta.
  replace (Z.abs_N (Z.abs x)) with (Z.abs_N x); [reflexivity |].
  destruct x; reflexivity.
Qed.

(** [bigToBN] hands over the bytes of the absolute value, so the sign
    does not cross the boundary: for every [x], negative ones included,
    [bnToBig (bigToBN x)] is [|x|], against the library whose
    big-number objects are minimal big-endian byte strings. *)
Theorem bigToBN_drops_sign (x : Z) (w : RefLib.world) :
  result RefLib.lib (bn <- bigToBN x ;; bnToBig bn) w
  = Returned (Some (Z.abs x)).
Proof.
  unfold result. rewrite run_bind.
  unfold bigToBN. cbn [C run RefLib.lib RefLib.new_bn].
  set (w1 := {| RefLib.next := N.succ (RefLib.next w);
                RefLib.bignums := _; RefLib.rsa_keys := _;
                RefLib.rsa_size := _ |}).
  assert (Hb : RefLib.bn_bytes (RefLib.next w) w1 = RefLib.trim (Bytes x)).
  { unfold RefLib.bn_bytes, w1. simpl. rewrite N.eqb_refl. reflexivity. }
  rewrite run_bnToBig.
  - cbn [RefLib.lib fst snd]. rewrite Hb. simpl.
    unfold SetBytes. rewrite be_value_trim.
    fold (SetBytes (Bytes x)). rewrite <- Bytes_abs.
    rewrite SetBytes_Bytes by apply Z.abs_nonneg.
    reflexivity.
  - cbn [RefLib.lib fst snd]. rewrite Nat2N.id. apply Nat.le_refl.
Qed.

(* ================================================================== *)
(** * boring.go: hasSuffix and UnreachableExceptTests                  *)
(* ================================================================== *)

Module BoringFacts.
Import Boring.

Lemma take_drop (n : nat) (s : string) :
  (Vectors.take n s ++ Vectors.drop n s)%string = s.
Proof.
  unfold Vectors.take. revert s.
  induction n as [| n IH]; intros [| c s]; simpl; try reflexivity.
  rewrite IH. reflexivity.
Qed.

Lemma length_take (n : nat) (s : string) :
  (n <= String.length s)%nat -> String.length (Vectors.take n s) = n.
Proof.
  unfold Vectors.take. revert s.
  induction n as [| n IH]; intros [| c s] H; simpl in *; try reflexivity;
    try lia.
  rewrite IH by lia. reflexivity.
Qed.

(** [hasSuffix s t] holds exactly when [s] is [t] with something
    non-empty in front: a string is not a suffix of itself. *)
Theorem hasSuffix_spec (s t : string) :
  hasSuffix s t = true <-> exists p, p <> "" /\ s = (p ++ t)%string.
Proof.
  unfold hasSuffix. split.
  - intro H. apply andb_prop in H. destruct H as [Hlen Heq].
    apply Nat.ltb_lt in Hlen. apply String.eqb_eq in Heq.
    exists (Vectors.take (String.length s - String.length t) s). split.
    + intro E.
      assert (L : String.length
                    (Vectors.take (String.length s - String.length t) s)
                  = (String.length s - String.length t)%nat)
        by (apply length_take; lia).
      rewrite E in L. simpl in L. lia.
    + pose proof (take_drop (String.length s - String.length t) s) as TD.
      rewrite Heq in TD. symmetry. exact TD.
  - intros (p & Hp & ->).
    rewrite VectorsFacts.length_append.
    replace (String.length p + String.length t - String.length t)%nat
      with (String.length p) by lia.
    rewrite VectorsFacts.drop_append, String.eqb_refl, andb_true_r.
    apply Nat.ltb_lt. destruct p as [| c p]; [contradiction |]. simpl. lia.
Qed.

(** [UnreachableExceptTests] panics exactly when BoringCrypto is
    enabled and the program is not a test binary, and it prints its one
    line exactly then; a program called just "_test" or ".test" does
    not count as a test binary. *)
Theorem UnreachableExceptTests_spec (Enabled : bool) (name : string) :
  (snd (UnreachableExceptTests Enabled name) = Panicked invalid
   <-> Enabled = true /\ ~ test_binary name)
  /\ (fst (UnreachableExceptTests Enabled name) <> []
      <-> snd (UnreachableExceptTests Enabled name) = Panicked invalid)
  /\ snd (UnreachableExceptTests true "_test") = Panicked invalid
  /\ snd (UnreachableExceptTests true ".test") = Panicked invalid.
Proof.
  unfold UnreachableExceptTests, test_binary.
  pose proof (hasSuffix_spec name "_test") as H1.
  pose proof (hasSuffix_spec name ".test") as H2.
  split; [| split; [| split; reflexivity]].
  - destruct Enabled; simpl.
    + destruct (hasSuffix name "_test") eqn:E1; simpl.
      * split; [discriminate |]. intros [_ Hn]. exfalso. apply Hn.
        destruct (proj1 H1 eq_refl) as (p & Hp & Hs). exists p. auto.
      * destruct (hasSuffix name ".test") eqn:E2; simpl.
        -- split; [discriminate |]. intros [_ Hn]. exfalso. apply Hn.
           destruct (proj1 H2 eq_refl) as (p & Hp & Hs). exists p. auto.
        -- split; [| reflexivity]. intros _. split; [reflexivity |].
           intros (stem & Hst & [Hs | Hs]).
           ++ assert (F : false = true) by (apply H1; exists stem; auto).
              discriminate F.
           ++ assert (F : false = true) by (apply H2; exists stem; auto).
              discriminate F.
    + split; [discriminate | intros [F _]; discriminate F].
  - destruct (Enabled && negb (hasSuffix name "_test")
              && negb (hasSuffix name ".test")); simpl.
    + split; [reflexivity | discriminate].
    + split; [intro H; contradiction | discriminate].
Qed.

End BoringFacts.

(* ================================================================== *)
(** * More facts about the test-vector harness                         *)
(* ================================================================== *)

Module HarnessFacts.
Import Vectors VectorsFacts Harness.

(** Splits a goal about [step] along the tests the loop body makes. *)
Ltac step_cases :=
  repeat match goal with
         | |- context [if ?b then _ else _] => destruct b
         | |- context [match ?x with Some _ => _ | None => _ end] =>
             destruct x
         | |- context [match ?x with
                       | EmptyString => _ | String _ _ => _ end] => destruct x
         | |- context [let '(_, _) := ?x in _] => destruct x
         end.

Section Lines.
Context {E : externals}.

Lemma step_counts (st st' : state) (raw : string) :
  step st raw = Running st' ->
  HasSuffix raw crlf = true /\ lineNo st' = lineNo st + 1.
Proof.
  unfold step. destruct (HasSuffix raw crlf); cbn [negb]; [| discriminate].
  intro H. split; [reflexivity |]. revert H.
  unfold header, variable, check_result, fromHex, header_hash, set_hash,
    set_curve.
  cbn [lineNo h pub Curve ch msg hashed r s X Y].
  step_cases; intro H; try discriminate H; injection H as <-; reflexivity.
Qed.

Lemma loop_counts (chunks : list string) (eof : bool) (st st' : state) :
  loop st chunks eof = Running st' ->
  eof = true
  /\ Forall (fun raw => HasSuffix raw crlf = true) chunks
  /\ lineNo st' = lineNo st + len chunks.
Proof.
  revert st. induction chunks as [| raw rest IH]; intros st; cbn [loop].
  - destruct eof; [| discriminate]. intro H. injection H as <-.
    unfold len. simpl. repeat split; [constructor | lia].
  - destruct (String.length raw =? 0)%nat; [discriminate |].
    destruct (step st raw) as [st1 | m | m] eqn:Es; try discriminate.
    intro H. apply IH in H. destruct H as (He & Hf & Hn).
    apply step_counts in Es. destruct Es as [Hs Hl].
    split; [exact He |]. split; [constructor; assumption |].
    unfold len in *. cbn [List.length]. lia.
Qed.

(** A run of [TestVectors] over a file passes only if reading ended
    with [io.EOF] and every chunk read ended in "\r\n"; the line
    counter, which starts at 1 and is advanced before each line is
    looked at, then stands at the number of chunks plus one. *)
Theorem TestVectors_pass_needs_crlf (chunks : list string) (eof : bool)
    (st : state) :
  testing_Short = false ->
  TestVectors (Some (chunks, eof)) = Running st ->
  eof = true
  /\ Forall (fun raw => HasSuffix raw crlf = true) chunks
  /\ lineNo st = 1 + len chunks.
Proof.
  intros Hs. unfold TestVectors. rewrite Hs. intro H.
  apply loop_counts in H. exact H.
Qed.

(** With [boring.Enabled], a section header for P-224 changes nothing
    but the line counter, whatever hash it names: the curve and the
    hash of the section before stay in force for the records that
    follow. *)
Theorem boring_P224_header_keeps_state (st : state) (hashname : string) :
  boring_Enabled = true ->
  step st (("[P-224," ++ hashname ++ "]") ++ crlf) = Running (counted st).
Proof. apply step_P224_boring. Qed.
End Lines.

Lemma TestVectors_pass_needs_crlf_witness :
  testing_Short (externals := accept_all false) = false
  /\ TestVectors (E := accept_all false)
       (Some ([("# x" ++ crlf)%string], true)) = Running (counted start)
  /\ lineNo (counted start) = 1 + len [("# x" ++ crlf)%string].
Proof.
  split; [reflexivity |]. split; [reflexivity |].
  apply (TestVectors_pass_needs_crlf (E := accept_all false)
           [("# x" ++ crlf)%string] true (counted start) eq_refl eq_refl).
Defined.

Lemma boring_P224_header_keeps_state_witness :
  boring_Enabled (externals := accept_all true) = true
  /\ step (E := accept_all true) start
       (("[P-224," ++ "SHA-1" ++ "]") ++ crlf) = Running (counted start).
Proof.
  split; [reflexivity |].
  apply (boring_P224_header_keeps_state (E := accept_all true) start "SHA-1").
  reflexivity.
Defined.

End HarnessFacts.

Module RecordFacts.
Import Vectors VectorsFacts Harness.

Section Records.
Context {E : externals}.

(** A whole record, read in a section with a supported curve and hash:
    the six lines (message, Qx, Qy, R, S, result) lead to one
    verification, of the signature (R, S) under the key (curve of the
    section, Qx, Qy) over the decoded message ([Verify] on its hash, or
    [HashVerify] on the message itself when [boring.Enabled]), and the
    run goes on exactly when its answer is what the result line
    expects. *)
Theorem record_is_verified (st : state) (f : hashfn) (crv : curve)
    (m qx qy rs ss : string) (c : ascii) (rest : string)
    (mb : bytes) (x y rv sv : Z) :
  h st = Some f -> Curve (pub st) = Some crv ->
  hex_DecodeString m = Some mb ->
  SetString16 qx = Some x -> SetString16 qy = Some y ->
  SetString16 rs = Some rv -> SetString16 ss = Some sv ->
  let key := {| Curve := Some crv; X := Some x; Y := Some y |} in
  let got := if boring_Enabled
             then HashVerify key mb (Some rv) (Some sv) (ch st)
             else Verify key (Sum f mb) (Some rv) (Some sv) in
  (got = Ascii.eqb c "P" ->
   exists st', loop st (record m qx qy rs ss c rest) true = Running st')
  /\ (got <> Ascii.eqb c "P" ->
      exists message,
        loop st (record m qx qy rs ss c rest) true = Failed message).
Proof.
  intros Hh Hc Hm Hx Hy Hr Hs. cbv zeta.
  destruct (record_steps st f crv m qx qy rs ss c rest mb x y rv sv
              Hh Hc Hm Hx Hy Hr Hs) as (st' & message & _ & Hloop).
  cbv zeta in Hloop. specialize (Hloop [] true).
  rewrite app_nil_r in Hloop. rewrite Hloop. split.
  - intro Heq. rewrite Heq, Bool.eqb_reflx. exists st'. reflexivity.
  - intro Hne. apply Bool.eqb_false_iff in Hne. rewrite Hne.
    exists message. reflexivity.
Qed.
End Records.

Lemma record_is_verified_witness :
  let st := counted
              (Vectors.set_hash (Vectors.set_curve start (Some P256))
                 (Some sha256_New) 5) in
  h st = Some sha256_New /\ Curve (pub st) = Some P256
  /\ true <> Ascii.eqb "F" "P"
  /\ exists message,
       loop (E := accept_all false) st
         (record "00" "01" "02" "03" "04" "F" " (1)") true = Failed message.
Proof.
  cbv zeta. split; [reflexivity |]. split; [reflexivity |].
  split; [discriminate |].
  refine (proj2 (record_is_verified (E := accept_all false)
                   (counted
                      (Vectors.set_hash
                         (Vectors.set_curve start (Some P256))
                         (Some sha256_New) 5))
                   sha256_New P256 "00" "01" "02" "03" "04" "F" " (1)"
                   [] 1 1 1 1 eq_refl eq_refl eq_refl eq_refl eq_refl eq_refl
                   eq_refl) _).
  discriminate.
Defined.

End RecordFacts.

(* ================================================================== *)
(** * More facts about build.release                                   *)
(* ================================================================== *)

Module ReleaseLogFacts.
Import Release ReleaseLog.

(** Follows the script one command or one test at a time. *)
Ltac sh_step tools :=
  match goal with
  | |- context [tools ?c ?w] =>
      let st := fresh "st" in
      let out := fresh "out" in
      let w' := fresh "w" in
      destruct (tools c w) as [[st out] w']; cbn [exec_log]
  | |- context [if ?b then _ else _] => destruct b eqn:?; cbn [exec_log]
  end.

(** Turns the tests on statuses into equations. *)
Ltac statuses :=
  repeat match goal with
         | H : negb _ = false |- _ => apply negb_false_iff in H
         | H : negb _ = true |- _ => apply negb_true_iff in H
         | H : (?s =? 0) = true |- _ => apply Z.eqb_eq in H; subst s
         | H : (?s =? 0) = false |- _ => apply Z.eqb_neq in H
         end.

Ltac in_log :=
  eexists; cbn [In]; repeat first [left; reflexivity | right].

(** Refutes [Exists P log] on an explicit log none of whose entries
    satisfies [P]. *)
Ltac none_in H :=
  apply Exists_exists in H; apply existsb_exists in H;
  vm_compute in H; discriminate H.

(** Runs the second part of the script to each of its exits. *)
Ltac run_publish tools :=
  unfold build_and_publish, say, must, leave; cbn [exec_log];
  repeat sh_step tools;
  let E := fresh "E" in
  intro E; injection E as <- <-; statuses.

Lemma ran_app_r log1 log2 c st : ran log2 c st -> ran (log1 ++ log2) c st.
Proof. intros [out H]. exists out. apply in_or_app. right. exact H. Qed.

Lemma ran_app_l log1 log2 c st : ran log1 c st -> ran (log1 ++ log2) c st.
Proof. intros [out H]. exists out. apply in_or_app. left. exact H. Qed.

Lemma prefix_append (a b : string) : String.prefix a (a ++ b) = true.
Proof.
  induction a as [| c a IH]; simpl; [destruct b; reflexivity |].
  destruct (ascii_dec c c); [exact IH | congruence].
Qed.


Section Script.
Context {W : Type} (tools : cmd -> W -> (Z * string) * W).

(** A run of the script stops in its first part, with a status other
    than 0, or it passes the look into RELEASES without a match and
    goes into the second part. *)
Lemma build_release_cases (args : list string) (w : W) (st : Z)
    (log : list (cmd * (Z * string))) :
  exec_log tools (build_release args) w = (st, log) ->
  (st = 2 /\ Forall (fun e => early (fst e) = true) log)
  \/ (st <> 0 /\ Forall (fun e => early (fst e) = true) log)
  \/ exists commit base boring head publog gst w',
       log = head ++ publog
       /\ Forall (fun e => early (fst e) = true) head
       /\ gst <> 0
       /\ ran head (grep_RELEASES ("^" ++ (base ++ "b" ++ boring) ++ " ")) gst
       /\ guarded_by (base ++ "b" ++ boring) head
       /\ exec_log tools
            (build_and_publish base commit (base ++ "b" ++ boring)) w'
          = (st, publog).
Proof.
  destruct args as [| ? [| ? ?]];
    unfold build_release, say, must, leave; cbn [exec_log];
    repeat sh_step tools;
    try (match goal with
         | |- context [exec_log tools (build_and_publish ?b ?c ?v) ?w'] =>
             destruct (exec_log tools (build_and_publish b c v) w')
               as [st' publog] eqn:Epub
         end);
    intro E; injection E as <- <-; statuses;
    try (left; split; [reflexivity | repeat constructor]; fail);
    try (right; left; split; [assumption | repeat constructor]; fail);
    right; right;
    match goal with
    | Epub : exec_log tools (build_and_publish ?b ?c (?b ++ "b" ++ ?bo)) ?w'
             = _ |- _ =>
        exists c, b, bo
    end;
    match goal with
    | |- exists head publog' gst w', ?e1 :: ?e2 :: ?e3 :: ?e4 :: ?e5 :: ?e6
                                     :: ?e7 :: ?e8 :: ?e9 :: _ = _ /\ _ =>
        exists [e1; e2; e3; e4; e5; e6; e7; e8; e9]
    end;
    do 3 eexists;
    (split; [reflexivity |]);
    (split; [repeat constructor |]);
    (split; [eassumption |]);
    (split; [in_log |]);
    (split; [| eassumption]);
    unfold guarded_by; repeat constructor; cbn [fst snd]; auto.
Qed.

Lemma publish_checked base commit version (w : W) st log :
  exec_log tools (build_and_publish base commit version) w = (st, log) ->
  Exists (fun e => publishes (fst e) = true) log ->
  exists pre post dir,
    log = pre ++ post
    /\ Forall (fun e => publishes (fst e) = false) pre
    /\ ran pre (release dir "linux-amd64" commit version) 0
    /\ ran pre (release dir "src" commit version) 0
    /\ ran pre (grep_nm "crypto/internal/boring/sig.BoringCrypto") 0
    /\ (exists s, s <> 0 /\ ran pre (egrep_nm "crypto/sha256\.\(\*digest\)") s).
Proof.
  run_publish tools; intro H;
    first
      [ none_in H
      | clear H;
        match goal with
        | |- exists pre post dir, ?l = _ /\ _ =>
            exists (firstn 13 l), (skipn 13 l)
        end;
        cbn [firstn skipn]; eexists;
        (split; [reflexivity |]);
        (split; [repeat constructor |]);
        (split; [in_log |]);
        (split; [in_log |]);
        (split; [in_log |]);
        eexists; (split; [| in_log]); assumption ].
Qed.

Lemma early_not_publishes (log : list (cmd * (Z * string))) :
  Forall (fun e => early (fst e) = true) log ->
  Forall (fun e => publishes (fst e) = false
                   /\ is_append (fst e) = false
                   /\ is_rm_rf (fst e) = false
                   /\ is_tar_extract (fst e) = false
                   /\ fst e <> mktemp_d) log.
Proof.
  apply Forall_impl. intros [c a]. cbn [fst].
  destruct c; simpl; intro H; try discriminate H;
    repeat split; discriminate.
Qed.

(** The script uploads nothing and records nothing except after these
    commands, all about one and the same version: the look for the
    version at the start of the lines of RELEASES answered a status
    other than 0; the release tool built both archives of that version
    with status 0; the grep for the BoringCrypto signature symbol in
    the symbols of the built go command answered 0; and the egrep for
    the sha256 digest symbol answered a status other than 0.  (The
    script does not tell an egrep that found nothing from one that
    could not run.) *)
Theorem publish_only_after_checks (args : list string) (w : W) :
  let log := snd (exec_log tools (build_release args) w) in
  Exists (fun e => publishes (fst e) = true) log ->
  exists pre post dir commit version,
    log = pre ++ post
    /\ Forall (fun e => publishes (fst e) = false) pre
    /\ (exists st, st <> 0
                   /\ ran pre (grep_RELEASES ("^" ++ version ++ " ")) st)
    /\ ran pre (release dir "linux-amd64" commit version) 0
    /\ ran pre (release dir "src" commit version) 0
    /\ ran pre (grep_nm "crypto/internal/boring/sig.BoringCrypto") 0
    /\ (exists st, st <> 0
                   /\ ran pre (egrep_nm "crypto/sha256\.\(\*digest\)") st).
Proof.
  cbv zeta.
  destruct (exec_log tools (build_release args) w) as [st log] eqn:E.
  cbn [snd]. intro H.
  assert (N : forall l : list (cmd * (Z * string)),
             Forall (fun e => early (fst e) = true) l ->
             Forall (fun e => publishes (fst e) = false) l).
  { intros l Hl. apply early_not_publishes in Hl. revert Hl.
    apply Forall_impl. intros e He. apply He. }
  assert (N' : forall l : list (cmd * (Z * string)),
             Forall (fun e => early (fst e) = true) l ->
             ~ Exists (fun e => publishes (fst e) = true) l).
  { intros l Hl Hex. apply N in Hl.
    apply Exists_exists in Hex. destruct Hex as (e & Hin & He).
    rewrite Forall_forall in Hl. rewrite (Hl e Hin) in He. discriminate He. }
  destruct (build_release_cases args w st log E)
    as [[_ He] | [[_ He] | (commit & base & boring & head & publog & gst & w'
                            & -> & Hhead & Hg & Hgrep & _ & Epub)]];
    try (exfalso; exact (N' _ He H)).
  apply Exists_app in H.
  destruct H as [H | H]; [exfalso; exact (N' _ Hhead H) |].
  destruct (publish_checked _ _ _ _ _ _ Epub H)
    as (pre & post & dir & -> & Hpre & R1 & R2 & R3 & (s & Hs & R4)).
  exists (head ++ pre), post, dir, commit, (base ++ "b" ++ boring)%string.
  split; [apply app_assoc |].
  split; [apply Forall_app; split; [apply N; exact Hhead | exact Hpre] |].
  split; [exists gst; split; [exact Hg | apply ran_app_l; exact Hgrep] |].
  split; [apply ran_app_r; exact R1 |].
  split; [apply ran_app_r; exact R2 |].
  split; [apply ran_app_r; exact R3 |].
  exists s. split; [exact Hs | apply ran_app_r; exact R4].
Qed.





Lemma publish_trap base commit version (w : W) st log :
  exec_log tools (build_and_publish base commit version) w = (st, log) ->
  exists s dir rest,
    log = (mktemp_d, (s, dir)) :: rest
    /\ Forall (fun e => fst e <> mktemp_d) rest
    /\ (s = 0 ->
        (exists pre a, log = pre ++ [(rm_rf dir, a)]
                       /\ Forall (fun e => is_tar_extract (fst e) = false) log)
        \/ (exists pre a, log = pre ++ [(rm_f_tmp, a)]
                          /\ Forall (fun e => is_rm_rf (fst e) = false) log
                          /\ Exists (fun e => is_tar_extract (fst e) = true)
                               log)).
Proof.
  run_publish tools;
    do 3 eexists;
    (split; [reflexivity |]);
    (split; [repeat constructor; discriminate |]);
    intro Hz; try congruence;
    match goal with
    | |- (exists pre a, ?l = _ /\ _) \/ _ =>
        first
          [ left; exists (removelast l); cbn [removelast]; eexists;
            split; [reflexivity | solve [repeat constructor]]
          | right; exists (removelast l); cbn [removelast]; eexists;
            split; [reflexivity |];
            split; [solve [repeat constructor] |];
            apply Exists_exists;
            apply (proj1 (existsb_exists
                            (fun e => is_tar_extract (fst e)) _));
            reflexivity ]
    end.
Qed.

(** Once the temporary directory is made, every exit of a run that has
    not got to unpacking the built archive removes the directory as its
    last command; every exit of a run that has got there ends with the
    second exit trap instead, which has taken the place of the first,
    and the directory is never removed in such a run. *)
Theorem temp_dir_cleanup (args : list string) (w : W) (dir : string) :
  let log := snd (exec_log tools (build_release args) w) in
  In (mktemp_d, (0, dir)) log ->
  (Forall (fun e => is_tar_extract (fst e) = false) log ->
   exists pre a, log = pre ++ [(rm_rf dir, a)])
  /\ (Exists (fun e => is_tar_extract (fst e) = true) log ->
      (exists pre a, log = pre ++ [(rm_f_tmp, a)])
      /\ Forall (fun e => is_rm_rf (fst e) = false) log).
Proof.
  cbv zeta.
  destruct (exec_log tools (build_release args) w) as [st log] eqn:E.
  cbn [snd]. intro H.
  assert (N : forall l : list (cmd * (Z * string)),
             Forall (fun e => early (fst e) = true) l ->
             ~ In (mktemp_d, (0, dir)) l).
  { intros l Hl Hin. apply early_not_publishes in Hl.
    rewrite Forall_forall in Hl. destruct (Hl _ Hin) as (_ & _ & _ & _ & Hm).
    apply Hm. reflexivity. }
  assert (T : forall l : list (cmd * (Z * string)),
             Forall (fun e => is_tar_extract (fst e) = false) l ->
             Exists (fun e => is_tar_extract (fst e) = true) l -> False).
  { intros l Hl Hex. apply Exists_exists in Hex.
    destruct Hex as (e & Hin & He). rewrite Forall_forall in Hl.
    rewrite (Hl e Hin) in He. discriminate He. }
  destruct (build_release_cases args w st log E)
    as [[_ He] | [[_ He] | (commit & base & boring & head & publog & gst & w'
                            & -> & Hhead & _ & _ & _ & Epub)]];
    try (exfalso; exact (N _ He H)).
  apply in_app_or in H. destruct H as [H | H]; [exfalso; exact (N _ Hhead H) |].
  destruct (publish_trap _ _ _ _ _ _ Epub)
    as (s & dir' & rest & -> & Hrest & Hshape).
  assert (Hsd : s = 0 /\ dir' = dir).
  { destruct H as [H | H]; [injection H as -> ->; auto |].
    rewrite Forall_forall in Hrest. exfalso. apply (Hrest _ H). reflexivity. }
  destruct Hsd as [-> ->].
  pose proof (early_not_publishes _ Hhead) as Hq.
  assert (Hq1 : Forall (fun e => is_tar_extract (fst e) = false) head)
    by (revert Hq; apply Forall_impl; intros e He; apply He).
  assert (Hq2 : Forall (fun e => is_rm_rf (fst e) = false) head)
    by (revert Hq; apply Forall_impl; intros e He; apply He).
  destruct (Hshape eq_refl)
    as [(pre & a & Hl & Hf) | (pre & a & Hl & Hf & Hx)].
  - split.
    + intros _. exists (head ++ pre), a. rewrite Hl, app_assoc. reflexivity.
    + intro Hex. exfalso. apply (T (head ++ (mktemp_d, (0, dir)) :: rest)).
      * apply Forall_app. split; [exact Hq1 | exact Hf].
      * exact Hex.
  - split.
    + intro Hall. exfalso. apply Forall_app in Hall.
      exact (T _ (proj2 Hall) Hx).
    + intros _. split.
      * exists (head ++ pre), a. rewrite Hl, app_assoc. reflexivity.
      * apply Forall_app. split; [exact Hq2 | exact Hf].
Qed.
End Script.

Lemma publish_only_after_checks_witness :
  let log := snd (exec_log (tools false) (build_release []) tt) in
  Exists (fun e => publishes (fst e) = true) log
  /\ exists pre post dir commit version,
       log = pre ++ post
       /\ Forall (fun e => publishes (fst e) = false) pre
       /\ (exists st, st <> 0
                      /\ ran pre (grep_RELEASES ("^" ++ version ++ " ")) st)
       /\ ran pre (release dir "linux-amd64" commit version) 0
       /\ ran pre (release dir "src" commit version) 0
       /\ ran pre (grep_nm "crypto/internal/boring/sig.BoringCrypto") 0
       /\ (exists st, st <> 0
                      /\ ran pre (egrep_nm "crypto/sha256\.\(\*digest\)") st).
Proof.
  cbv zeta.
  assert (H : Exists (fun e => publishes (fst e) = true)
                (snd (exec_log (tools false) (build_release []) tt))).
  { apply Exists_exists.
    apply (proj1 (existsb_exists (fun e => publishes (fst e)) _)).
    reflexivity. }
  split; [exact H |].
  apply (publish_only_after_checks (tools false) [] tt H).
Defined.



Lemma temp_dir_cleanup_witness :
  let log := snd (exec_log (tools false) (build_release []) tt) in
  In (mktemp_d, (0, "/tmp/tmp.1")) log
  /\ (Forall (fun e => is_tar_extract (fst e) = false) log ->
      exists pre a, log = pre ++ [(rm_rf "/tmp/tmp.1", a)])
  /\ (Exists (fun e => is_tar_extract (fst e) = true) log ->
      (exists pre a, log = pre ++ [(rm_f_tmp, a)])
      /\ Forall (fun e => is_rm_rf (fst e) = false) log).
Proof.
  cbv zeta.
  assert (H : In (mktemp_d, (0, "/tmp/tmp.1"))
                (snd (exec_log (tools false) (build_release []) tt))).
  { simpl. tauto. }
  split; [exact H |].
  apply (temp_dir_cleanup (tools false) [] tt "/tmp/tmp.1" H).
Defined.

End ReleaseLogFacts.

(* ================================================================== *)
(** * Building keys: bigToBn, NewPublicKeyRSA, NewPrivateKeyRSA        *)
(* ================================================================== *)

Module KeysFacts.
Import Keys.
Local Open Scope kprog_scope.

Lemma is_nil_true (p : ptr) : is_nil p = true -> p = nil.
Proof. unfold is_nil, nil. intro H. apply N.eqb_eq in H. exact H. Qed.

Lemma is_nil_false (p : ptr) : is_nil p = false -> p <> nil.
Proof. unfold is_nil, nil. intro H. apply N.eqb_neq in H. exact H. Qed.

Lemma stands_for_incl (tr tr' : list kevent) (b : bigInt) (p : ptr) :
  incl tr tr' -> stands_for tr b p -> stands_for tr' b p.
Proof.
  intros Hi. destruct b as [x |]; cbn [stands_for]; [| exact (fun H => H)].
  intros [Hp Hin]. split; [exact Hp | apply Hi, Hin].
Qed.

Lemma ends_app (pre tr : list kevent) :
  ends_on_failed_bin2bn tr -> ends_on_failed_bin2bn (pre ++ tr).
Proof.
  intros (pre' & raw & n & ->). exists (pre ++ pre'), raw, n.
  apply app_assoc.
Qed.

Lemma ends_cons (e : kevent) (tr : list kevent) :
  ends_on_failed_bin2bn tr -> ends_on_failed_bin2bn (e :: tr).
Proof. apply (ends_app [e]). Qed.

Section Constructors.
Context {W : Type} (lib : forall c : kcall, W -> kresp c * W).

Lemma krun_bind {A B} (p : kprog A) (f : A -> kprog B) (w : W) :
  krun lib (kbind p f) w =
  let '(a, w1, tr1) := krun lib p w in
  let '(b, w2, tr2) := krun lib (f a) w1 in
  (b, w2, tr1 ++ tr2).
Proof.
  revert w. induction p as [a | c k IH]; intro w; cbn [kbind krun].
  - destruct (krun lib (f a) w) as [[b w2] tr2]. reflexivity.
  - destruct (lib c w) as [x w1]. rewrite IH.
    destruct (krun lib (k x) w1) as [[a w2] tr1].
    destruct (krun lib (f a) w2) as [[b w3] tr2]. reflexivity.
Qed.

Lemma run_bigToBn (old : ptr) (b : bigInt) (w : W) :
  exists p ok w' tr,
    krun lib (bigToBn old b) w = (p, ok, w', tr) /\ converted old b p ok tr.
Proof.
  unfold bigToBn, converted.
  destruct (is_nil old) eqn:Hold; cbn [negb kbind KC krun].
  - apply is_nil_true in Hold. subst old.
    destruct b as [x |]; cbn [kbind KC krun].
    + destruct (lib (Lib (BN_bin2bn (Bytes x) (C_size_t (len (Bytes x))))) w)
        as [bn w1] eqn:E.
      destruct (is_nil bn) eqn:Hbn; cbn [krun].
      * apply is_nil_true in Hbn. subst bn.
        do 4 eexists. split; [reflexivity |].
        split; [split; [reflexivity | split; [discriminate |]] |].
        { exists [], (Bytes x), (C_size_t (len (Bytes x))). reflexivity. }
        split; [intros y [Hy | []]; discriminate |].
        split; [intro H; contradiction H; reflexivity |].
        repeat constructor.
      * apply is_nil_false in Hbn.
        do 4 eexists. split; [reflexivity |].
        split; [split; [exact Hbn | left; reflexivity] |].
        split; [intros y [Hy | []]; discriminate |].
        split; [intro H; contradiction H; reflexivity |].
        repeat constructor.
    + do 4 eexists. split; [reflexivity |].
      split; [reflexivity |].
      split; [intros y [] |].
      split; [intro H; contradiction H; reflexivity |].
      constructor.
  - apply is_nil_false in Hold.
    destruct (lib (BN_free old) w) as [u w0] eqn:E0.
    destruct b as [x |]; cbn [kbind KC krun].
    + destruct (lib (Lib (BN_bin2bn (Bytes x) (C_size_t (len (Bytes x))))) w0)
        as [bn w1] eqn:E.
      destruct (is_nil bn) eqn:Hbn; cbn [krun].
      * apply is_nil_true in Hbn. subst bn.
        do 4 eexists. split; [reflexivity |].
        split; [split; [reflexivity | split; [discriminate |]] |].
        { exists [existT kresp (BN_free old) u], (Bytes x),
            (C_size_t (len (Bytes x))). reflexivity. }
        split; [intros y [Hy | [Hy | []]];
                [injection Hy as <-; split; [reflexivity | exact Hold]
                | discriminate] |].
        split; [intros _; eexists; reflexivity |].
        repeat constructor.
      * apply is_nil_false in Hbn.
        do 4 eexists. split; [reflexivity |].
        split; [split; [exact Hbn | right; left; reflexivity] |].
        split; [intros y [Hy | [Hy | []]];
                [injection Hy as <-; split; [reflexivity | exact Hold]
                | discriminate] |].
        split; [intros _; eexists; reflexivity |].
        repeat constructor.
    + do 4 eexists. split; [reflexivity |].
      split; [reflexivity |].
      split; [intros y [Hy | []];
              injection Hy as <-; split; [reflexivity | exact Hold] |].
      split; [intros _; eexists; reflexivity |].
      repeat constructor.
Qed.

Ltac convert lib :=
  match goal with
  | |- context [krun lib (kbind (bigToBn ?old ?b) ?f) ?w] =>
      let p := fresh "p" in
      let ok := fresh "ok" in
      let w' := fresh "w" in
      let tr := fresh "tr" in
      let E := fresh "E" in
      let Hc := fresh "Hc" in
      rewrite (krun_bind (bigToBn old b) f w);
      destruct (run_bigToBn old b w) as (p & ok & w' & tr & E & Hc);
      rewrite E; clear E; cbv iota beta;
      destruct Hc as (Hc & _ & _ & ?);
      destruct ok; cbn [negb]
  end.

Tactic Notation "library" constr(lib) "as" simple_intropattern(pat) :=
  cbn [kbind KC krun];
  match goal with
  | |- context [lib ?c ?w] => destruct (lib c w) as pat
  end.

(** The events of the whole run contain those of each conversion. *)
Ltac within :=
  intros ? ?;
  repeat first
    [ assumption
    | apply in_or_app; left; assumption
    | apply in_or_app; right
    | apply in_cons ].

Ltac untouched :=
  repeat first
    [ assumption
    | rewrite map_app
    | apply Forall_app; split
    | apply Forall_nil
    | apply Forall_cons; [reflexivity |] ].

Ltac failed :=
  cbn [krun]; do 3 eexists; split; [reflexivity |];
  split; [cbn [map projT1]; untouched |];
  right; split; [reflexivity |];
  rewrite app_nil_r;
  match goal with
  | H : _ /\ _ /\ ends_on_failed_bin2bn _ |- _ =>
      destruct H as (_ & _ & H);
      repeat first [ exact H | apply ends_cons | apply ends_app ]
  end.

Lemma run_NewPublicKeyRSA (N E : bigInt) (w : W) :
  exists res w' tr,
    krun lib (NewPublicKeyRSA N E) w = (res, w', tr)
    /\ match res with
       | (Some k, None) =>
           exists n e,
             built tr (pub_key k) [N; E] [n; e]
               [RSA_set0_key (pub_key k) n e nil; SetFinalizer (pub_key k)]
       | (None, Some err) =>
           Forall (fun c => touches_key c = false)
             (map (@projT1 kcall kresp) tr)
           /\ ((err = NewOpenSSLError "RSA_new failed"
                /\ tr = [existT kresp (Lib RSA_new) nil])
               \/ (err = BN_failed /\ ends_on_failed_bin2bn tr))
       | _ => False
       end.
Proof.
  unfold NewPublicKeyRSA.
  library lib as [key w0].
  destruct (is_nil key) eqn:Hkey.
  { apply is_nil_true in Hkey. subst key. cbn [krun].
    do 3 eexists. split; [reflexivity |].
    split; [repeat constructor | left; split; reflexivity]. }
  apply is_nil_false in Hkey.
  library lib as [[[n e] d] w1].
  convert lib; [| failed].
  convert lib; [| failed].
  library lib as [? ?]. library lib as [? ?]. cbn [krun].
  do 3 eexists. split; [reflexivity |].
  exists p, p0. unfold built. cbn [pub_key].
  split; [exact Hkey |].
  split; [left; reflexivity |].
  split.
  { repeat (apply Forall2_cons || apply Forall2_nil);
      (eapply stands_for_incl; [| eassumption]); within. }
  match goal with
  | |- exists pre, map _ (?e1 :: ?e2 :: ?t1 ++ ?t2 ++ _) = _ /\ _ =>
      exists (map (@projT1 kcall kresp) (e1 :: e2 :: t1 ++ t2))
  end.
  split.
  { cbn [map projT1 app]. rewrite !map_app. cbn [map projT1 app].
    rewrite <- !app_assoc. reflexivity. }
  cbn [map projT1]. untouched.
Qed.

Lemma run_NewPrivateKeyRSA (N E D P Q Dp Dq Qinv : bigInt) (w : W) :
  exists res w' tr,
    krun lib (NewPrivateKeyRSA N E D P Q Dp Dq Qinv) w = (res, w', tr)
    /\ match res with
       | (Some k, None) =>
           exists n e d p q dp dq qinv,
             built tr (priv_key k) [N; E; D; P; Q; Dp; Dq; Qinv]
               [n; e; d; p; q; dp; dq; qinv]
               [RSA_set0_key (priv_key k) n e d;
                RSA_set0_factors (priv_key k) p q;
                RSA_set0_crt_params (priv_key k) dp dq qinv;
                SetFinalizer (priv_key k)]
       | (None, Some err) =>
           Forall (fun c => touches_key c = false)
             (map (@projT1 kcall kresp) tr)
           /\ ((err = NewOpenSSLError "RSA_new failed"
                /\ tr = [existT kresp (Lib RSA_new) nil])
               \/ (err = BN_failed /\ ends_on_failed_bin2bn tr))
       | _ => False
       end.
Proof.
  unfold NewPrivateKeyRSA.
  library lib as [key w0].
  destruct (is_nil key) eqn:Hkey.
  { apply is_nil_true in Hkey. subst key. cbn [krun].
    do 3 eexists. split; [reflexivity |].
    split; [repeat constructor | left; split; reflexivity]. }
  apply is_nil_false in Hkey.
  library lib as [[[n e] d] w1].
  library lib as [[p q] w2].
  library lib as [[[dp dq] qinv] w3].
  do 8 (convert lib; [| failed]).
  library lib as [? ?]. library lib as [? ?].
  library lib as [? ?]. library lib as [? ?]. cbn [krun].
  do 3 eexists. split; [reflexivity |].
  do 8 eexists. unfold built. cbn [priv_key].
  split; [exact Hkey |].
  split; [left; reflexivity |].
  split.
  { repeat (apply Forall2_cons || apply Forall2_nil);
      (eapply stands_for_incl; [| eassumption]); within. }
  match goal with
  | |- exists pre,
         map _ (?e1 :: ?e2 :: ?e3 :: ?e4 ::
                ?t1 ++ ?t2 ++ ?t3 ++ ?t4 ++ ?t5 ++ ?t6 ++ ?t7 ++ ?t8 ++ _)
         = _ /\ _ =>
      exists (map (@projT1 kcall kresp)
                (e1 :: e2 :: e3 :: e4 ::
                 t1 ++ t2 ++ t3 ++ t4 ++ t5 ++ t6 ++ t7 ++ t8))
  end.
  split.
  { cbn [map projT1 app]. rewrite !map_app. cbn [map projT1 app].
    rewrite <- !app_assoc. reflexivity. }
  cbn [map projT1]. untouched.
Qed.

(** [bigToBn] frees the number the slot held, if any, before anything
    else and frees nothing else; it leaves in the slot nil for a nil
    number and otherwise the non-nil answer of [BN_bin2bn] on the bytes
    of the number; it reports [false] only when that answer was nil, as
    the last thing that happened, and the slot is then nil; it never
    touches a key. *)
Theorem bigToBn_converts (old : ptr) (b : bigInt) (w : W) :
  converted old b (fst (kresult lib (bigToBn old b) w))
    (snd (kresult lib (bigToBn old b) w)) (ktrace lib (bigToBn old b) w).
Proof.
  destruct (run_bigToBn old b w) as (p & ok & w' & tr & E & H).
  unfold kresult, ktrace. rewrite E. exact H.
Qed.

(** When [NewPublicKeyRSA] returns a key there is no error, and the key
    is the non-nil answer of [RSA_new]; its modulus and exponent stand
    for [N] and [E]; the last two calls hand them to the key with a nil
    private exponent and register the finalizer, and no call before
    touched the key. *)
Theorem NewPublicKeyRSA_builds_key (N E : bigInt) (w : W)
    (k : PublicKeyRSA) :
  fst (kresult lib (NewPublicKeyRSA N E) w) = Some k ->
  snd (kresult lib (NewPublicKeyRSA N E) w) = None
  /\ exists n e,
       built (ktrace lib (NewPublicKeyRSA N E) w) (pub_key k) [N; E] [n; e]
         [RSA_set0_key (pub_key k) n e nil; SetFinalizer (pub_key k)].
Proof.
  destruct (run_NewPublicKeyRSA N E w) as (res & w' & tr & Er & H).
  unfold kresult, ktrace. rewrite Er. cbn [fst snd].
  destruct res as [[k' |] [err |]]; try contradiction; try discriminate.
  intro Hk. injection Hk as <-. split; [reflexivity | exact H].
Qed.

(** When [NewPublicKeyRSA] returns no key it returns an error: either
    [RSA_new] answered nil and nothing else was called, or a [BN_bin2bn]
    answered nil and the function returned right after it. In both
    cases no number was handed to a key, no finalizer was registered,
    and the key from [RSA_new] was not freed. *)
Theorem NewPublicKeyRSA_failure (N E : bigInt) (w : W) :
  fst (kresult lib (NewPublicKeyRSA N E) w) = None ->
  exists err,
    snd (kresult lib (NewPublicKeyRSA N E) w) = Some err
    /\ Forall (fun c => touches_key c = false)
         (kcalls lib (NewPublicKeyRSA N E) w)
    /\ ((err = NewOpenSSLError "RSA_new failed"
         /\ ktrace lib (NewPublicKeyRSA N E) w
            = [existT kresp (Lib RSA_new) nil])
        \/ (err = BN_failed
            /\ ends_on_failed_bin2bn (ktrace lib (NewPublicKeyRSA N E) w))).
Proof.
  destruct (run_NewPublicKeyRSA N E w) as (res & w' & tr & Er & H).
  unfold kresult, kcalls, ktrace. rewrite Er. cbn [fst snd].
  destruct res as [[k' |] [err |]]; try contradiction; try discriminate.
  intros _. exists err. split; [reflexivity | exact H].
Qed.

(** When [NewPrivateKeyRSA] returns a key there is no error, and the
    key is the non-nil answer of [RSA_new]; eight pointers stand for the
    eight numbers, in the order of the arguments; the last four calls
    hand them to the key (modulus and exponents, factors, CRT
    parameters) and register the finalizer, and no call before touched
    the key. *)
Theorem NewPrivateKeyRSA_builds_key (N E D P Q Dp Dq Qinv : bigInt) (w : W)
    (k : PrivateKeyRSA) :
  fst (kresult lib (NewPrivateKeyRSA N E D P Q Dp Dq Qinv) w) = Some k ->
  snd (kresult lib (NewPrivateKeyRSA N E D P Q Dp Dq Qinv) w) = None
  /\ exists n e d p q dp dq qinv,
       built (ktrace lib (NewPrivateKeyRSA N E D P Q Dp Dq Qinv) w)
         (priv_key k) [N; E; D; P; Q; Dp; Dq; Qinv]
         [n; e; d; p; q; dp; dq; qinv]
         [RSA_set0_key (priv_key k) n e d;
          RSA_set0_factors (priv_key k) p q;
          RSA_set0_crt_params (priv_key k) dp dq qinv;
          SetFinalizer (priv_key k)].
Proof.
  destruct (run_NewPrivateKeyRSA N E D P Q Dp Dq Qinv w)
    as (res & w' & tr & Er & H).
  unfold kresult, ktrace. rewrite Er. cbn [fst snd].
  destruct res as [[k' |] [err |]]; try contradiction; try discriminate.
  intro Hk. injection Hk as <-. split; [reflexivity | exact H].
Qed.

(** When [NewPrivateKeyRSA] returns no key it returns an error: either
    [RSA_new] answered nil and nothing else was called, or a [BN_bin2bn]
    answered nil and the function returned right after it, without
    converting the numbers that follow. In both cases no number was
    handed to a key, no finalizer was registered, and the key from
    [RSA_new] was not freed. *)
Theorem NewPrivateKeyRSA_failure (N E D P Q Dp Dq Qinv : bigInt) (w : W) :
  fst (kresult lib (NewPrivateKeyRSA N E D P Q Dp Dq Qinv) w) = None ->
  exists err,
    snd (kresult lib (NewPrivateKeyRSA N E D P Q Dp Dq Qinv) w) = Some err
    /\ Forall (fun c => touches_key c = false)
         (kcalls lib (NewPrivateKeyRSA N E D P Q Dp Dq Qinv) w)
    /\ ((err = NewOpenSSLError "RSA_new failed"
         /\ ktrace lib (NewPrivateKeyRSA N E D P Q Dp Dq Qinv) w
            = [existT kresp (Lib RSA_new) nil])
        \/ (err = BN_failed
            /\ ends_on_failed_bin2bn
                 (ktrace lib (NewPrivateKeyRSA N E D P Q Dp Dq Qinv) w))).
Proof.
  destruct (run_NewPrivateKeyRSA N E D P Q Dp Dq Qinv w)
    as (res & w' & tr & Er & H).
  unfold kresult, kcalls, ktrace. rewrite Er. cbn [fst snd].
  destruct res as [[k' |] [err |]]; try contradiction; try discriminate.
  intros _. exists err. split; [reflexivity | exact H].
Qed.

End Constructors.

Lemma NewPublicKeyRSA_builds_key_witness :
  fst (kresult lib (NewPublicKeyRSA (Some 3233) (Some 17)) RefLib.init)
  = Some {| pub_key := 1%N |}
  /\ (snd (kresult lib (NewPublicKeyRSA (Some 3233) (Some 17)) RefLib.init)
      = None
      /\ exists n e,
           built (ktrace lib (NewPublicKeyRSA (Some 3233) (Some 17))
                    RefLib.init)
             1%N [Some 3233; Some 17] [n; e]
             [RSA_set0_key 1%N n e nil; SetFinalizer 1%N]).
Proof.
  split; [vm_compute; reflexivity |].
  apply (NewPublicKeyRSA_builds_key lib (Some 3233) (Some 17) RefLib.init
           {| pub_key := 1%N |}).
  vm_compute. reflexivity.
Defined.

Lemma NewPublicKeyRSA_failure_witness :
  fst (kresult (lib_short 3) (NewPublicKeyRSA (Some 3233) (Some 17))
         RefLib.init) = None
  /\ exists err,
       snd (kresult (lib_short 3) (NewPublicKeyRSA (Some 3233) (Some 17))
              RefLib.init) = Some err
       /\ Forall (fun c => touches_key c = false)
            (kcalls (lib_short 3) (NewPublicKeyRSA (Some 3233) (Some 17))
               RefLib.init)
       /\ ((err = NewOpenSSLError "RSA_new failed"
            /\ ktrace (lib_short 3) (NewPublicKeyRSA (Some 3233) (Some 17))
                 RefLib.init
               = [existT kresp (Lib RSA_new) nil])
           \/ (err = BN_failed
               /\ ends_on_failed_bin2bn
                    (ktrace (lib_short 3)
                       (NewPublicKeyRSA (Some 3233) (Some 17)) RefLib.init))).
Proof.
  split; [vm_compute; reflexivity |].
  apply (NewPublicKeyRSA_failure (lib_short 3) (Some 3233) (Some 17)
           RefLib.init).
  vm_compute. reflexivity.
Defined.

Lemma NewPrivateKeyRSA_builds_key_witness :
  fst (kresult lib
         (NewPrivateKeyRSA (Some 3233) (Some 17) (Some 2753) (Some 61)
            (Some 53) (Some 53) (Some 49) (Some 38)) RefLib.init)
  = Some {| priv_key := 1%N |}
  /\ (snd (kresult lib
             (NewPrivateKeyRSA (Some 3233) (Some 17) (Some 2753) (Some 61)
                (Some 53) (Some 53) (Some 49) (Some 38)) RefLib.init)
      = None
      /\ exists n e d p q dp dq qinv,
           built (ktrace lib
                    (NewPrivateKeyRSA (Some 3233) (Some 17) (Some 2753)
                       (Some 61) (Some 53) (Some 53) (Some 49) (Some 38))
                    RefLib.init)
             1%N
             [Some 3233; Some 17; Some 2753; Some 61; Some 53; Some 53;
              Some 49; Some 38]
             [n; e; d; p; q; dp; dq; qinv]
             [RSA_set0_key 1%N n e d; RSA_set0_factors 1%N p q;
              RSA_set0_crt_params 1%N dp dq qinv; SetFinalizer 1%N]).
Proof.
  split; [vm_compute; reflexivity |].
  apply (NewPrivateKeyRSA_builds_key lib (Some 3233) (Some 17) (Some 2753)
           (Some 61) (Some 53) (Some 53) (Some 49) (Some 38) RefLib.init
           {| priv_key := 1%N |}).
  vm_compute. reflexivity.
Defined.

Lemma NewPrivateKeyRSA_failure_witness :
  fst (kresult (lib_short 5)
         (NewPrivateKeyRSA (Some 3233) (Some 17) (Some 2753) (Some 61)
            (Some 53) (Some 53) (Some 49) (Some 38)) RefLib.init) = None
  /\ exists err,
       snd (kresult (lib_short 5)
              (NewPrivateKeyRSA (Some 3233) (Some 17) (Some 2753) (Some 61)
                 (Some 53) (Some 53) (Some 49) (Some 38)) RefLib.init)
       = Some err
       /\ Forall (fun c => touches_key c = false)
            (kcalls (lib_short 5)
               (NewPrivateKeyRSA (Some 3233) (Some 17) (Some 2753) (Some 61)
                  (Some 53) (Some 53) (Some 49) (Some 38)) RefLib.init)
       /\ ((err = NewOpenSSLError "RSA_new failed"
            /\ ktrace (lib_short 5)
                 (NewPrivateKeyRSA (Some 3233) (Some 17) (Some 2753)
                    (Some 61) (Some 53) (Some 53) (Some 49) (Some 38))
                 RefLib.init
               = [existT kresp (Lib RSA_new) nil])
           \/ (err = BN_failed
               /\ ends_on_failed_bin2bn
                    (ktrace (lib_short 5)
                       (NewPrivateKeyRSA (Some 3233) (Some 17) (Some 2753)
                          (Some 61) (Some 53) (Some 53) (Some 49) (Some 38))
                       RefLib.init))).
Proof.
  split; [vm_compute; reflexivity |].
  apply (NewPrivateKeyRSA_failure (lib_short 5) (Some 3233) (Some 17)
           (Some 2753) (Some 61) (Some 53) (Some 53) (Some 49) (Some 38)
           RefLib.init).
  vm_compute. reflexivity.
Defined.

End KeysFacts.
